(** * Live loudness graph: the recording screen of [src/app/index.tsx]

    A shallow embedding of the one component of the application (the
    function [App]) and of the helpers it declares: [normalizePitch],
    [updatePitchData], [onRecordingStatusUpdate], [formatTime],
    [startRecording] and [stopRecording], together with the part of the
    JavaScript runtime they rest on (numbers, [Math.max], [Math.min],
    [Math.pow], array spread and [slice], [padStart], timers).

    Modelling decisions, each stated where it is made:
    - a JavaScript number is [NaN], an infinity or a finite value; finite
      values are real numbers (type [R]), so binary64 rounding and the sign
      of zero are not modelled, while [NaN] and the infinities are; the
      normalizer is also given on binary64 values, to evaluate it;
    - integer valued numbers (milliseconds, lengths, timer ids) are [Z] or
      [nat];
    - React state and refs are fields of one record that is passed along;
      what a closure captured at its render is an explicit argument;
    - timers are a queue inside the world, driven by an event loop: a
      function of the component runs to completion before the next event;
    - the module [expo-av] is an interface whose calls may fail. *)

From Stdlib Require Import Floats.
From Stdlib Require Import ZArith List Bool String Ascii Reals Lra Lia.
From Stdlib Require Import DecimalString DecimalFacts DecimalPos DecimalN.
From stdpp Require Import gmap list relations.

Import ListNotations.

(** ** JavaScript numbers *)

Module JS.

Local Open Scope R_scope.

(** The Number type: [Infinity false] is [+Infinity], [Infinity true] is
    [-Infinity]. *)
Inductive number : Type :=
| NaN
| Infinity (negative : bool)
| Finite (r : R).

(** [sign_bit r] is true for a negative real. *)
Definition sign_bit (r : R) : bool := if Rlt_dec r 0 then true else false.

(** The operators [-], [*] and [/] of the language, on the special values as
    ECMAScript defines them and exact on finite values. A finite zero is [+0]. *)
Definition sub (a b : number) : number :=
  match a, b with
  | NaN, _ | _, NaN => NaN
  | Infinity s, Infinity t => if Bool.eqb s t then NaN else Infinity s
  | Infinity s, Finite _ => Infinity s
  | Finite _, Infinity t => Infinity (negb t)
  | Finite x, Finite y => Finite (x - y)
  end.

Definition mul (a b : number) : number :=
  match a, b with
  | NaN, _ | _, NaN => NaN
  | Infinity s, Infinity t => Infinity (xorb s t)
  | Infinity s, Finite y | Finite y, Infinity s =>
      if Req_dec_T y 0 then NaN else Infinity (xorb s (sign_bit y))
  | Finite x, Finite y => Finite (x * y)
  end.

Definition div (a b : number) : number :=
  match a, b with
  | NaN, _ | _, NaN => NaN
  | Infinity _, Infinity _ => NaN
  | Infinity s, Finite y => Infinity (xorb s (sign_bit y))
  | Finite _, Infinity _ => Finite 0
  | Finite x, Finite y =>
      if Req_dec_T y 0
      then (if Req_dec_T x 0 then NaN else Infinity (sign_bit x))
      else Finite (x / y)
  end.

(** [Math.max] and [Math.min] of two arguments: [NaN] as soon as one argument
    is [NaN]. *)
Definition Math_max (a b : number) : number :=
  match a, b with
  | NaN, _ | _, NaN => NaN
  | Infinity false, _ | _, Infinity false => Infinity false
  | Infinity true, x | x, Infinity true => x
  | Finite x, Finite y => Finite (Rmax x y)
  end.

Definition Math_min (a b : number) : number :=
  match a, b with
  | NaN, _ | _, NaN => NaN
  | Infinity true, _ | _, Infinity true => Infinity true
  | Infinity false, x | x, Infinity false => x
  | Finite x, Finite y => Finite (Rmin x y)
  end.

(** A real that is an integer, and an odd one. *)
Definition is_integer (y : R) : bool :=
  if Req_dec_T (IZR (Int_part y)) y then true else false.

Definition is_odd_integer (y : R) : bool :=
  is_integer y && Z.odd (Int_part y).

(** [Math.pow base exponent], following Number::exponentiate: the cases on
    special values are ECMAScript's; on finite operands the result is the
    exact power. *)
Definition Math_pow (base exponent : number) : number :=
  match exponent with
  | NaN => NaN
  | Infinity neg_e =>
      match base with
      | NaN => NaN
      | Infinity _ => if neg_e then Finite 0 else Infinity false
      | Finite x =>
          if Rlt_dec 1 (Rabs x) then (if neg_e then Finite 0 else Infinity false)
          else if Req_dec_T (Rabs x) 1 then NaN
          else (if neg_e then Infinity false else Finite 0)
      end
  | Finite y =>
      if Req_dec_T y 0 then Finite 1 else
      match base with
      | NaN => NaN
      | Infinity false => if Rlt_dec 0 y then Infinity false else Finite 0
      | Infinity true =>
          if Rlt_dec 0 y then Infinity (is_odd_integer y) else Finite 0
      | Finite x =>
          if Req_dec_T x 0 then (if Rlt_dec 0 y then Finite 0 else Infinity false)
          else if Rlt_dec 0 x then Finite (Rpower x y)
          else if is_integer y then Finite (powerRZ x (Int_part y))
          else NaN
      end
  end.

(** The relation [a <= b] of the language: false as soon as one side is [NaN]. *)
Definition le (a b : number) : Prop :=
  match a, b with
  | NaN, _ | _, NaN => False
  | Infinity true, _ | _, Infinity false => True
  | Infinity false, _ | _, Infinity true => False
  | Finite x, Finite y => x <= y
  end.

Declare Scope js_scope.
Delimit Scope js_scope with js.
Bind Scope js_scope with number.
Infix "-" := sub : js_scope.
Infix "*" := mul : js_scope.
Infix "/" := div : js_scope.
Infix "<=" := le : js_scope.
Notation "# r" := (Finite r%R) (at level 5, r at level 1, format "# r") : js_scope.

End JS.

Import JS.

(** ** The Loudness Normalizer: [normalizePitch] *)

Section Normalizer.

Local Open Scope js_scope.

(** [normalizePitch], lines 101 to 108. *)
Definition normalizePitch (metering : number) : number :=
  let minDb := #(-60) in
  let maxDb := #(-10) in
  let clampedMetering := Math_max minDb (Math_min maxDb metering) in
  let normalizedValue := ((clampedMetering - minDb) / (maxDb - minDb)) * #100 in
  let normalizedValue := Math_pow (normalizedValue / #100) #0.5 * #100 in
  Math_max #0 (Math_min #100 normalizedValue).

End Normalizer.

(** A sample the display can draw: a finite number from 0 to 100. *)
Definition in_display_range (n : number) : Prop :=
  match n with Finite r => (0 <= r <= 100)%R | _ => False end.

(** The reference pipeline of the specification, on real numbers: clamp,
    rescale linearly, take the square root curve, clamp again. *)
Module Reference.

Local Open Scope R_scope.

(** "values below [lo] treated as [lo]; above [hi] treated as [hi]" *)
Definition clamp (lo hi x : R) : R :=
  if Rlt_dec x lo then lo else if Rlt_dec hi x then hi else x.

Definition normalize (db : R) : R :=
  let clamped := clamp (-60) (-10) db in
  let linear := (clamped - (-60)) / ((-10) - (-60)) * 100 in
  let scaled := sqrt (linear / 100) * 100 in
  clamp 0 100 scaled.

End Reference.

(** ** The normalizer on binary64 values *)

(** The same function on the floating-point numbers the engine computes
    with, to evaluate it at given readings. [Math.pow] is only
    approximated by an engine; here the power one half is the correctly
    rounded square root, with ECMAScript's results at zero and at
    [-Infinity]. *)
Module Binary64.

Local Open Scope float_scope.

Definition Math_max (a b : float) : float :=
  if PrimFloat.is_nan a || PrimFloat.is_nan b then PrimFloat.nan
  else if a <? b then b
  else if b <? a then a
  else if PrimFloat.is_zero a then a + b
  else a.

Definition Math_min (a b : float) : float :=
  if PrimFloat.is_nan a || PrimFloat.is_nan b then PrimFloat.nan
  else if a <? b then a
  else if b <? a then b
  else if PrimFloat.is_zero a then - (- a + - b)
  else a.

Definition Math_pow_half (base : float) : float :=
  if PrimFloat.is_nan base then PrimFloat.nan
  else if PrimFloat.is_zero base then 0
  else if base =? PrimFloat.neg_infinity then PrimFloat.infinity
  else PrimFloat.sqrt base.

Definition normalizePitch (metering : float) : float :=
  let minDb := -60 in
  let maxDb := -10 in
  let clampedMetering := Math_max minDb (Math_min maxDb metering) in
  let normalizedValue := ((clampedMetering - minDb) / (maxDb - minDb)) * 100 in
  let normalizedValue := Math_pow_half (normalizedValue / 100) * 100 in
  Math_max 0 (Math_min 100 normalizedValue).

End Binary64.

(** ** Values, arrays and strings of the runtime *)

(** The values a status field can hold, and [typeof] on them. *)
Inductive value : Type :=
| VUndefined
| VNull
| VBoolean (b : bool)
| VNumber (n : number)
| VString (s : string)
| VObject.

Definition typeof (v : value) : string :=
  match v with
  | VUndefined => "undefined"
  | VNull => "object"
  | VBoolean _ => "boolean"
  | VNumber _ => "number"
  | VString _ => "string"
  | VObject => "object"
  end.

Section Arrays.

Context {A : Type}.

(** [arr.slice(start)] with the end left out: a negative [start] counts from
    the end of the array, and both directions saturate. *)
Definition Array_slice (start : Z) (arr : list A) : list A :=
  let len := Z.of_nat (length arr) in
  let k := if (start <? 0)%Z then Z.max (len + start) 0 else Z.min start len in
  skipn (Z.to_nat k) arr.

(** [[...arr, x]] *)
Definition Array_spread_append (arr : list A) (x : A) : list A := arr ++ [x].

End Arrays.

(** [String.prototype.padStart]: the filler is [padString] repeated and cut to
    the missing length; a string that is long enough, or an empty filler,
    leaves the string as it is. *)
Fixpoint String_take (n : nat) (s : string) : string :=
  match n, s with
  | S n', String c s' => String c (String_take n' s')
  | _, _ => EmptyString
  end.

Fixpoint String_repeat (s : string) (count : nat) : string :=
  match count with
  | O => EmptyString
  | S count' => (s ++ String_repeat s count')%string
  end.

Definition String_padStart (s : string) (targetLength : nat) (padString : string)
  : string :=
  let len := String.length s in
  if (targetLength <=? len)%nat then s
  else if (String.length padString =? 0)%nat then s
  else
    let fillLen := (targetLength - len)%nat in
    (String_take fillLen (String_repeat padString fillLen) ++ s)%string.

(** [n.toString()] for an integer valued number: its decimal digits, with a
    minus sign when negative. *)
Definition Number_toString (n : Z) : string :=
  NilZero.string_of_int (Z.to_int n).

(** ** Constants of the screen, lines 8 to 10 *)

Definition RECORDING_TIME_LIMIT : Z := 60000.
Definition REFRESH_INTERVAL : Z := 100.
Definition MAX_DATA_POINTS : Z := 600.

(** ** The Rolling Sample Window *)

(** The updater that [updatePitchData] hands to [setPitchData], lines 111 to
    117, for any type of samples. *)
Definition pitchData_updater {A : Type} (newPitch : A) (currentData : list A)
  : list A :=
  let updatedData := Array_spread_append currentData newPitch in
  if (Z.of_nat (length updatedData) >? MAX_DATA_POINTS)%Z
  then Array_slice (- MAX_DATA_POINTS) updatedData
  else updatedData.

(** A window after a sequence of appends, oldest append first. *)
Definition appends {A : Type} (samples : list A) (window : list A) : list A :=
  fold_left (fun currentData newPitch => pitchData_updater newPitch currentData)
            samples window.

(** ** The elapsed time display: [formatTime], lines 120 to 125 *)

(** The argument is an integer number of milliseconds, so [Math.floor] of a
    quotient is the floor division of [Z]; [%] is the remainder that takes the
    sign of the dividend. *)
Definition formatTime (ms : Z) : string :=
  let seconds := (ms / 1000)%Z in
  let minutes := (seconds / 60)%Z in
  let remainingSeconds := Z.rem seconds 60 in
  (String_padStart (Number_toString minutes) 2 "0" ++ ":"
   ++ String_padStart (Number_toString remainingSeconds) 2 "0")%string.

(** The two-digit rendering the description of [formatTime] speaks of: the
    decimal digits, with one ["0"] in front of a single digit. *)
Definition pad2 (n : Z) : string :=
  if (n <? 10)%Z then String "0" (Number_toString n) else Number_toString n.

(** ** The audio backend *)

(** What [getStatusAsync] resolves to: the two fields the screen reads. *)
Module Status.
Record t : Type := { isRecording : bool; metering : value }.
End Status.

(** A call either completes normally or throws. *)
Inductive completion (A : Type) : Type :=
| Normal (a : A)
| Throw (err : string).
Arguments Normal {A} a.
Arguments Throw {A} err.

(** An [Audio.Recording] object is known by its identity. *)
Definition handle : Type := nat.

(** The module [expo-av] is not part of the repository: its calls are the
    methods of an interface, each free to fail and to change the state [B] of
    the backend. *)
Class AudioBackend (B : Type) : Type := {
  requestPermissionsAsync : B -> completion unit * B;
  setAudioModeAsync : B -> completion unit * B;
  new_Recording : B -> handle * B;
  prepareToRecordAsync : handle -> B -> completion unit * B;
  startAsync : handle -> B -> completion unit * B;
  getStatusAsync : handle -> B -> completion Status.t * B;
  stopAndUnloadAsync : handle -> B -> completion unit * B
}.

(** The calls made to the backend, in the order they were made. *)
Inductive backend_call : Type :=
| CallRequestPermissions
| CallSetAudioMode
| CallNewRecording (h : handle)
| CallPrepareToRecord (h : handle)
| CallStart (h : handle)
| CallGetStatus (h : handle)
| CallStopAndUnload (h : handle).

(** ** Timers *)

(** The three functions the screen hands to [setInterval] and [setTimeout].
    A closure is kept with what it captured: the sampling tick its
    [newRecording] (lines 44 to 49), the deadline the [recording] that
    [stopRecording] saw in the render that started the session (lines 51 to
    53), the elapsed time tick its [startTime] (lines 57 to 59). *)
Inductive callback : Type :=
| SampleTick (newRecording : handle)
| Deadline (recording : option handle)
| ElapsedTick (startTime : Z).

(** A pending timer; [period] is [None] for a timeout. Timer ids are positive
    integers, so an id is always truthy. *)
Record timer : Type := {
  timer_id : positive;
  due : Z;
  period : option Z;
  timer_callback : callback
}.

(** What [timerRef.current] holds: [null], the id of the timeout (between
    lines 51 and 61), or the object of line 61. *)
Inductive timer_ref : Type :=
| TRnull
| TRid (timeout : positive)
| TRobject (timeout : option positive) (interval : option positive).

(** Reading [.timeout] and [.interval] off [timerRef.current]; a number has
    neither property. *)
Definition field_timeout (r : timer_ref) : option positive :=
  match r with TRobject t _ => t | _ => None end.

Definition field_interval (r : timer_ref) : option positive :=
  match r with TRobject _ i => i | _ => None end.

(** The value of [timerRef.current] when it is used as a timer id. *)
Definition as_timer_id (r : timer_ref) : option positive :=
  match r with TRid t => Some t | _ => None end.

(** ** The world: state of the component, refs, timers, clock, backend *)

Section Controller.

Context {B : Type} `{AudioBackend B}.

Record world : Type := {
  (* useState *)
  recording : option handle;
  pitch : option number;
  pitchData : list number;
  isRecording : bool;
  elapsedTime : Z;
  (* useRef *)
  intervalRef : option positive;
  timerRef : timer_ref;
  (* the runtime *)
  now : Z;
  timers : list timer;
  next_timer_id : positive;
  console : list string;
  (* the backend and the calls made to it *)
  audio : B;
  calls : list backend_call
}.

(** The first render: every [useState] and [useRef] at its initial value. *)
Definition initial (b : B) (t : Z) : world := {|
  recording := None; pitch := None; pitchData := []; isRecording := false;
  elapsedTime := 0; intervalRef := None; timerRef := TRnull;
  now := t; timers := []; next_timer_id := 1%positive; console := [];
  audio := b; calls := []
|}.

(** *** Actions: state passing with exceptions *)

Definition action (A : Type) : Type := world -> completion A * world.

Definition ret {A} (a : A) : action A := fun w => (Normal a, w).

Definition bind {A C} (m : action A) (k : A -> action C) : action C :=
  fun w =>
    match m w with
    | (Normal a, w') => k a w'
    | (Throw err, w') => (Throw err, w')
    end.

(** [try { body } catch (err) { handler err }] *)
Definition try_catch {A} (body : action A) (handler : string -> action A)
  : action A :=
  fun w =>
    match body w with
    | (Normal a, w') => (Normal a, w')
    | (Throw err, w') => handler err w'
    end.

Definition modify (f : world -> world) : action unit := fun w => (Normal tt, f w).

Definition gets {A} (f : world -> A) : action A := fun w => (Normal (f w), w).

Declare Scope action_scope.
Delimit Scope action_scope with action.
Bind Scope action_scope with action.
Notation "x <- m ;; k" := (bind m (fun x => k))
  (at level 100, m at next level, right associativity) : action_scope.
Notation "m ;; k" := (bind m (fun _ => k))
  (at level 100, right associativity) : action_scope.
Local Open Scope action_scope.

(** The setters of [useState] and the assignments to the refs. *)
Definition setRecording (v : option handle) : action unit :=
  modify (fun w => {|
    recording := v; pitch := pitch w; pitchData := pitchData w;
    isRecording := isRecording w; elapsedTime := elapsedTime w;
    intervalRef := intervalRef w; timerRef := timerRef w; now := now w;
    timers := timers w; next_timer_id := next_timer_id w; console := console w;
    audio := audio w; calls := calls w |}).

Definition setPitch (v : option number) : action unit :=
  modify (fun w => {|
    recording := recording w; pitch := v; pitchData := pitchData w;
    isRecording := isRecording w; elapsedTime := elapsedTime w;
    intervalRef := intervalRef w; timerRef := timerRef w; now := now w;
    timers := timers w; next_timer_id := next_timer_id w; console := console w;
    audio := audio w; calls := calls w |}).

(** [setPitchData] with an updater function. *)
Definition setPitchData (updater : list number -> list number) : action unit :=
  modify (fun w => {|
    recording := recording w; pitch := pitch w; pitchData := updater (pitchData w);
    isRecording := isRecording w; elapsedTime := elapsedTime w;
    intervalRef := intervalRef w; timerRef := timerRef w; now := now w;
    timers := timers w; next_timer_id := next_timer_id w; console := console w;
    audio := audio w; calls := calls w |}).

Definition setIsRecording (v : bool) : action unit :=
  modify (fun w => {|
    recording := recording w; pitch := pitch w; pitchData := pitchData w;
    isRecording := v; elapsedTime := elapsedTime w;
    intervalRef := intervalRef w; timerRef := timerRef w; now := now w;
    timers := timers w; next_timer_id := next_timer_id w; console := console w;
    audio := audio w; calls := calls w |}).

Definition setElapsedTime (v : Z) : action unit :=
  modify (fun w => {|
    recording := recording w; pitch := pitch w; pitchData := pitchData w;
    isRecording := isRecording w; elapsedTime := v;
    intervalRef := intervalRef w; timerRef := timerRef w; now := now w;
    timers := timers w; next_timer_id := next_timer_id w; console := console w;
    audio := audio w; calls := calls w |}).

Definition set_intervalRef (v : option positive) : action unit :=
  modify (fun w => {|
    recording := recording w; pitch := pitch w; pitchData := pitchData w;
    isRecording := isRecording w; elapsedTime := elapsedTime w;
    intervalRef := v; timerRef := timerRef w; now := now w;
    timers := timers w; next_timer_id := next_timer_id w; console := console w;
    audio := audio w; calls := calls w |}).

Definition set_timerRef (v : timer_ref) : action unit :=
  modify (fun w => {|
    recording := recording w; pitch := pitch w; pitchData := pitchData w;
    isRecording := isRecording w; elapsedTime := elapsedTime w;
    intervalRef := intervalRef w; timerRef := v; now := now w;
    timers := timers w; next_timer_id := next_timer_id w; console := console w;
    audio := audio w; calls := calls w |}).

(** The runtime: the timer queue, the clock, the console. *)
Definition set_timers (ts : list timer) (next : positive) (w : world) : world := {|
  recording := recording w; pitch := pitch w; pitchData := pitchData w;
  isRecording := isRecording w; elapsedTime := elapsedTime w;
  intervalRef := intervalRef w; timerRef := timerRef w; now := now w;
  timers := ts; next_timer_id := next; console := console w;
  audio := audio w; calls := calls w |}.

Definition set_now (t : Z) (w : world) : world := {|
  recording := recording w; pitch := pitch w; pitchData := pitchData w;
  isRecording := isRecording w; elapsedTime := elapsedTime w;
  intervalRef := intervalRef w; timerRef := timerRef w; now := t;
  timers := timers w; next_timer_id := next_timer_id w; console := console w;
  audio := audio w; calls := calls w |}.

Definition set_audio (b : B) (c : backend_call) (w : world) : world := {|
  recording := recording w; pitch := pitch w; pitchData := pitchData w;
  isRecording := isRecording w; elapsedTime := elapsedTime w;
  intervalRef := intervalRef w; timerRef := timerRef w; now := now w;
  timers := timers w; next_timer_id := next_timer_id w; console := console w;
  audio := b; calls := calls w ++ [c] |}.

Definition console_error (msg err : string) : action unit :=
  modify (fun w => {|
    recording := recording w; pitch := pitch w; pitchData := pitchData w;
    isRecording := isRecording w; elapsedTime := elapsedTime w;
    intervalRef := intervalRef w; timerRef := timerRef w; now := now w;
    timers := timers w; next_timer_id := next_timer_id w;
    console := console w ++ [(msg ++ " " ++ err)%string];
    audio := audio w; calls := calls w |}).

Definition Date_now : action Z := gets now.

(** [setInterval] and [setTimeout] queue a timer under a fresh id and return
    the id. *)
Definition schedule (p : option Z) (cb : callback) (delay : Z) : action positive :=
  fun w =>
    let id := next_timer_id w in
    let t := {| timer_id := id; due := (now w + delay)%Z; period := p;
                timer_callback := cb |} in
    (Normal id, set_timers (timers w ++ [t]) (Pos.succ id) w).

Definition setInterval (cb : callback) (delay : Z) : action positive :=
  schedule (Some delay) cb delay.

Definition setTimeout (cb : callback) (delay : Z) : action positive :=
  schedule None cb delay.

(** [clearTimeout] and [clearInterval] take a timer out of the one queue both
    kinds share; [undefined] or an unknown id clears nothing. *)
Definition remove_timer (id : positive) (ts : list timer) : list timer :=
  List.filter (fun t => negb (Pos.eqb (timer_id t) id)) ts.

Definition clearTimer (id : option positive) : action unit :=
  modify (fun w =>
    match id with
    | Some i => set_timers (remove_timer i (timers w)) (next_timer_id w) w
    | None => w
    end).

Definition clearTimeout := clearTimer.
Definition clearInterval := clearTimer.

(** A call to the backend, recorded in [calls]. *)
Definition call {A} (c : backend_call) (method : B -> completion A * B)
  : action A :=
  fun w => let (r, b) := method (audio w) in (r, set_audio b c w).

Definition construct_Recording : action handle :=
  fun w => let (h, b) := new_Recording (audio w) in
           (Normal h, set_audio b (CallNewRecording h) w).

(** *** The functions of the component *)

(** [updatePitchData], lines 110 to 118. *)
Definition updatePitchData (newPitch : number) : action unit :=
  setPitchData (pitchData_updater newPitch).

(** [onRecordingStatusUpdate], lines 90 to 99. *)
Definition onRecordingStatusUpdate (status : Status.t) : action unit :=
  if Status.isRecording status then
    let metering := Status.metering status in
    if String.eqb (typeof metering) "number" then
      match metering with
      | VNumber metering =>
          let normalizedPitch := normalizePitch metering in
          setPitch (Some normalizedPitch) ;;
          updatePitchData normalizedPitch
      | _ => ret tt
      end
    else ret tt
  else ret tt.

(** [stopRecording], lines 67 to 88. Its argument is the [recording] of the
    render the function belongs to; the refs are read from the world. *)
Definition stopRecording (recording : option handle) : action unit :=
  current <- gets intervalRef ;;
  match current with
  | Some id => clearInterval (Some id) ;; set_intervalRef None
  | None => ret tt
  end ;;
  current <- gets timerRef ;;
  match current with
  | TRnull => ret tt
  | _ =>
      clearTimeout (field_timeout current) ;;
      clearInterval (field_interval current) ;;
      set_timerRef TRnull
  end ;;
  match recording with
  | Some recording =>
      try_catch
        (call (CallStopAndUnload recording) (stopAndUnloadAsync recording))
        (fun err => console_error "Error stopping recording:" err)
  | None => ret tt
  end ;;
  setRecording None ;;
  setIsRecording false.

(** [startRecording], lines 27 to 65. Its argument is the [recording] of the
    render the function belongs to, which the [stopRecording] it hands to
    [setTimeout] will see. *)
Definition startRecording (recording : option handle) : action unit :=
  try_catch
    (call CallRequestPermissions requestPermissionsAsync ;;
     call CallSetAudioMode setAudioModeAsync ;;
     newRecording <- construct_Recording ;;
     call (CallPrepareToRecord newRecording) (prepareToRecordAsync newRecording) ;;
     setRecording (Some newRecording) ;;
     call (CallStart newRecording) (startAsync newRecording) ;;
     setIsRecording true ;;
     setPitchData (fun _ => []) ;;
     setElapsedTime 0 ;;
     id <- setInterval (SampleTick newRecording) REFRESH_INTERVAL ;;
     set_intervalRef (Some id) ;;
     id <- setTimeout (Deadline recording) RECORDING_TIME_LIMIT ;;
     set_timerRef (TRid id) ;;
     startTime <- Date_now ;;
     timeInterval <- setInterval (ElapsedTick startTime) 1000 ;;
     current <- gets timerRef ;;
     set_timerRef (TRobject (as_timer_id current) (Some timeInterval)))
    (fun err => console_error "Failed to start recording" err).

(** The body of a timer's function. A rejection of the sampling tick's
    promise is handled by nobody. *)
Definition run_callback (cb : callback) : action unit :=
  match cb with
  | SampleTick newRecording =>
      status <- call (CallGetStatus newRecording) (getStatusAsync newRecording) ;;
      onRecordingStatusUpdate status
  | Deadline recording => stopRecording recording
  | ElapsedTick startTime =>
      t <- Date_now ;;
      setElapsedTime (t - startTime)
  end.

(** *** The event loop *)

(** Firing a timer: the clock reaches its due time, an interval is queued
    again one period later and a timeout leaves the queue, then its function
    runs to completion. *)
Definition rearm (t : timer) (fired_at : Z) (ts : list timer) : list timer :=
  match period t with
  | Some p =>
      map (fun t' =>
             if Pos.eqb (timer_id t') (timer_id t)
             then {| timer_id := timer_id t'; due := (fired_at + p)%Z;
                     period := period t'; timer_callback := timer_callback t' |}
             else t') ts
  | None => remove_timer (timer_id t) ts
  end.

Definition fire (t : timer) (w : world) : world :=
  let fired_at := Z.max (now w) (due t) in
  let w1 := set_now fired_at w in
  let w2 := set_timers (rearm t fired_at (timers w1)) (next_timer_id w1) w1 in
  snd (run_callback (timer_callback t) w2).

(** A timer may fire when none is due before it; timers due at the same
    instant fire in any order. *)
Definition earliest (t : timer) (ts : list timer) : Prop :=
  In t ts /\ forall t', In t' ts -> (due t <= due t')%Z.

Inductive fires : world -> world -> Prop :=
| fires_timer (t : timer) (w : world) :
    earliest t (timers w) -> fires w (fire t w).

(** The loop of one engine: among the earliest timers, the one queued first. *)
Fixpoint next_timer (ts : list timer) : option timer :=
  match ts with
  | [] => None
  | t :: ts' =>
      match next_timer ts' with
      | Some t' => if (due t' <? due t)%Z then Some t' else Some t
      | None => Some t
      end
  end.

Definition tick (w : world) : world :=
  match next_timer (timers w) with
  | Some t => fire t w
  | None => w
  end.

Fixpoint run (n : nat) (w : world) : world :=
  match n with
  | O => w
  | S n' => run n' (tick w)
  end.

(** *** The button and the life of the screen *)

(** [onPress={isRecording ? stopRecording : startRecording}], line 200, with
    the functions of the current render. *)
Definition press (w : world) : world :=
  snd ((if isRecording w then stopRecording (recording w)
        else startRecording (recording w)) w).

(** The cleanup of the effect of lines 21 to 25 calls the [stopRecording] of
    the first render, where [recording] is [undefined]. *)
Definition teardown (w : world) : world := snd (stopRecording None w).

(** What can happen to a mounted screen: a timer fires, or the button is
    pressed at some instant before the next timer is due. *)
Inductive app_step : world -> world -> Prop :=
| step_fires (w w' : world) : fires w w' -> app_step w w'
| step_press (w : world) (at_time : Z) :
    (now w <= at_time)%Z ->
    (forall t, In t (timers w) -> (at_time <= due t)%Z) ->
    app_step w (press (set_now at_time w)).

Definition reachable (w : world) : Prop :=
  exists b t, rtc app_step (initial b t) w.

End Controller.

Arguments world B : clear implicits.
Arguments action B A : clear implicits.

(** *** A scripted backend, for examples *)

(** Its state: the statuses that the next calls of [getStatusAsync] resolve
    to, the identity of the next recording object, and whether
    [stopAndUnloadAsync] fails. *)
Record script : Type := {
  statuses : list Status.t;
  next_handle : handle;
  unload_fails : bool
}.

#[export] Instance scripted : AudioBackend script := {|
  requestPermissionsAsync b := (Normal tt, b);
  setAudioModeAsync b := (Normal tt, b);
  new_Recording b :=
    (next_handle b,
     {| statuses := statuses b; next_handle := S (next_handle b);
        unload_fails := unload_fails b |});
  prepareToRecordAsync _ b := (Normal tt, b);
  startAsync _ b := (Normal tt, b);
  getStatusAsync _ b :=
    match statuses b with
    | status :: rest =>
        (Normal status,
         {| statuses := rest; next_handle := next_handle b;
            unload_fails := unload_fails b |})
    | [] => (Throw "no status", b)
    end;
  stopAndUnloadAsync _ b :=
    if unload_fails b then (Throw "cannot unload", b) else (Normal tt, b)
|}.

(** A backend that never has a status to report. *)
Definition mute : script :=
  {| statuses := []; next_handle := 0; unload_fails := false |}.

(** A backend that reports silence, then a loud reading, then nothing. *)
Definition quiet_then_loud (fails : bool) : script := {|
  statuses := [ {| Status.isRecording := true; Status.metering := VNumber (Finite (-60)) |};
                {| Status.isRecording := true; Status.metering := VNumber (Finite (-10)) |};
                {| Status.isRecording := true; Status.metering := VUndefined |} ];
  next_handle := 0;
  unload_fails := fails
|}.

(** ** The shapes a world of the screen can have *)

Section Shapes.

Context {B : Type} `{AudioBackend B}.

(** The three timers of a session. *)
Definition sample_timer (id : positive) (due_at : Z) (h : handle) : timer :=
  {| timer_id := id; due := due_at; period := Some REFRESH_INTERVAL;
     timer_callback := SampleTick h |}.

Definition deadline_timer (id : positive) (startTime : Z) (captured : option handle)
  : timer :=
  {| timer_id := id; due := (startTime + RECORDING_TIME_LIMIT)%Z; period := None;
     timer_callback := Deadline captured |}.

Definition elapsed_timer (id : positive) (due_at : Z) (startTime : Z) : timer :=
  {| timer_id := id; due := due_at; period := Some 1000%Z;
     timer_callback := ElapsedTick startTime |}.

(** [clearTimeout] and [clearInterval] on what a ref may hold. *)
Definition cleared (id : option positive) (ts : list timer) : list timer :=
  match id with Some i => remove_timer i ts | None => ts end.

(** The calls that release a recording object. *)
Definition is_unload (call : backend_call) : bool :=
  match call with CallStopAndUnload _ => true | _ => false end.

Definition unload_calls (w : world B) : list backend_call :=
  List.filter is_unload (calls w).

(** No session: nothing is scheduled and the refs hold nothing. *)
Definition idle (w : world B) : Prop :=
  isRecording w = false /\ timers w = [] /\ intervalRef w = None
  /\ timerRef w = TRnull.

(** A session that started at [startTime] from a render whose [recording] was
    [captured]: the queue holds its three timers and nothing else, the refs
    hold their ids, and the clock has not passed a timer that is due. *)
Definition session (startTime : Z) (captured : option handle) (w : world B) : Prop :=
  exists (h : handle) (a b e : positive) (ds de : Z),
    isRecording w = true
    /\ intervalRef w = Some a
    /\ timerRef w = TRobject (Some b) (Some e)
    /\ timers w = [ sample_timer a ds h; deadline_timer b startTime captured;
                    elapsed_timer e de startTime ]
    /\ (a <> b /\ a <> e /\ b <> e)
    /\ (startTime <= now w <= startTime + RECORDING_TIME_LIMIT)%Z
    /\ (now w <= ds <= startTime + RECORDING_TIME_LIMIT + REFRESH_INTERVAL)%Z
    /\ (now w <= de <= startTime + RECORDING_TIME_LIMIT + 1000)%Z
    /\ (0 <= elapsedTime w <= now w - startTime)%Z.

(** A session that its deadline has ended. *)
Definition ended (startTime : Z) (w : world B) : Prop :=
  idle w /\ recording w = None
  /\ now w = (startTime + RECORDING_TIME_LIMIT)%Z
  /\ (0 <= elapsedTime w <= RECORDING_TIME_LIMIT)%Z.

(** How far the two periodic timers are from the end of the session. *)
Definition remaining (startTime : Z) (w : world B) : Z :=
  fold_right
    (fun t acc =>
       match period t with
       | Some p => (startTime + RECORDING_TIME_LIMIT + p - due t + acc)%Z
       | None => acc
       end) 0%Z (timers w).

End Shapes.

(** A branch of [startRecording] in which a call to the backend threw: the
    handler logs it and nothing of the session is touched. *)
Ltac start_failed :=
  eexists; split; [reflexivity|]; split; [reflexivity|]; left; repeat split.

(** Unfolding the two time constants before linear arithmetic. *)
Ltac time_lia :=
  unfold RECORDING_TIME_LIMIT, REFRESH_INTERVAL in *; lia.

(** ** Arrays as objects *)

(** An array of the language is an object reached through a reference, and
    two references may name the same array. The store maps a reference to
    the elements of its array; [pitchData], as React state, is a reference. *)

Section ArrayStore.

Context {A : Type}.

Implicit Types (s : gmap positive (list A)) (arr : positive).

Definition contents s arr : list A := default [] (s !! arr).

(** An array literal, a spread or a [slice] makes a new array. *)
Definition allocate (elements : list A) s : positive * gmap positive (list A) :=
  let arr := fresh (dom s) in (arr, <[arr := elements]> s).

(** [[...currentData, newPitch]] *)
Definition spread_append_ref (currentData : positive) (newPitch : A) s
  : positive * gmap positive (list A) :=
  allocate (Array_spread_append (contents s currentData) newPitch) s.

(** [arr.slice(start)] *)
Definition slice_ref (start : Z) arr s : positive * gmap positive (list A) :=
  allocate (Array_slice start (contents s arr)) s.

(** The updater of [updatePitchData], lines 111 to 117, on references. *)
Definition pitchData_updater_ref (newPitch : A) (currentData : positive) s
  : positive * gmap positive (list A) :=
  let (updatedData, s1) := spread_append_ref currentData newPitch s in
  if (Z.of_nat (length (contents s1 updatedData)) >? MAX_DATA_POINTS)%Z
  then slice_ref (- MAX_DATA_POINTS) updatedData s1
  else (updatedData, s1).

(** The [data] of the chart's dataset, line 143:
    [pitchData.length > 0 ? pitchData : [0]]. *)
Definition chart_data (zero : A) (pitchData : positive) s
  : positive * gmap positive (list A) :=
  if (0 <? length (contents s pitchData))%nat then (pitchData, s)
  else allocate [zero] s.

(** What a holder of a reference can do to the array: [arr.push(x)]. *)
Definition Array_push arr (x : A) s : gmap positive (list A) :=
  <[arr := contents s arr ++ [x]]> s.

End ArrayStore.

(** ** Reading the display back *)

From Stdlib Require DecimalZ.

(** A reader of what [formatTime] prints, to state what the text still
    tells: the text is cut at its first colon and each side is read as a
    decimal number. *)
Fixpoint split_colon (s : string) : string * string :=
  match s with
  | EmptyString => (EmptyString, EmptyString)
  | String c rest =>
      if Ascii.eqb c ":" then (EmptyString, rest)
      else let (before, after) := split_colon rest in (String c before, after)
  end.

Definition parse_number (s : string) : option Z :=
  option_map Z.of_int (NilZero.int_of_string s).

Definition parse_time (s : string) : option (Z * Z) :=
  let (before, after) := split_colon s in
  match parse_number before, parse_number after with
  | Some minutes, Some seconds => Some (minutes, seconds)
  | _, _ => None
  end.

Fixpoint colon_free (s : string) : Prop :=
  match s with
  | EmptyString => True
  | String c rest => Ascii.eqb c ":" = false /\ colon_free rest
  end.

(** ** More shapes of the world *)

Section MoreShapes.

Context {B : Type} `{AudioBackend B}.

(** The line that [startRecording] writes to the console when it fails. *)
Definition start_failure_line (err : string) : string :=
  ("Failed to start recording" ++ " " ++ err)%string.

(** The ids handed out so far are below the counter of the runtime. *)
Definition ids_below (w : world B) : Prop :=
  Forall (fun t => (timer_id t < next_timer_id w)%positive) (timers w).

(** A session with what else it keeps: its [recording] is the object that the
    sampling tick polls, the window has grown by at most one sample for each
    period of the sampling tick, which never fired early, and the timers hold
    ids that were handed out. *)
Definition live (startTime : Z) (captured : option handle) (w : world B) : Prop :=
  session startTime captured w
  /\ exists (h : handle) (a b e : positive) (ds de : Z),
       timers w = [ sample_timer a ds h; deadline_timer b startTime captured;
                    elapsed_timer e de startTime ]
       /\ recording w = Some h
       /\ (Z.of_nat (length (pitchData w)) * REFRESH_INTERVAL + REFRESH_INTERVAL
           <= ds - startTime)%Z
       /\ (ds <= now w + REFRESH_INTERVAL)%Z.

(** What holds of the screen whatever was pressed and whatever fired. *)
Definition consistent (w : world B) : Prop :=
  (0 <= elapsedTime w <= RECORDING_TIME_LIMIT)%Z
  /\ (length (pitchData w) <= 600)%nat
  /\ ids_below w
  /\ (idle w \/ exists (startTime : Z) (captured : option handle),
                  live startTime captured w).

(** A backend that never reports [NaN] as its metering. *)
Definition never_reports_NaN : Prop :=
  forall (h : handle) (b b' : B) (status : Status.t),
    getStatusAsync h b = (Normal status, b') ->
    forall m, Status.metering status = VNumber m -> m <> NaN.

End MoreShapes.

(** *** A backend that refuses, for examples *)

(** Its state: how many more calls of [startAsync] fail, and the identity of
    the next recording object. It never has a status to report. *)
Record stubborn : Type := {
  refusals : nat;
  next_object : handle
}.

#[export] Instance stubborn_backend : AudioBackend stubborn := {|
  requestPermissionsAsync b := (Normal tt, b);
  setAudioModeAsync b := (Normal tt, b);
  new_Recording b :=
    (next_object b,
     {| refusals := refusals b; next_object := S (next_object b) |});
  prepareToRecordAsync _ b := (Normal tt, b);
  startAsync _ b :=
    match refusals b with
    | S n => (Throw "busy", {| refusals := n; next_object := next_object b |})
    | O => (Normal tt, b)
    end;
  getStatusAsync _ b := (Throw "no status", b);
  stopAndUnloadAsync _ b := (Normal tt, b)
|}.

Definition refuses_once : stubborn := {| refusals := 1; next_object := 0 |}.

(** ** Facts about the normalizer *)

Section NormalizerFacts.

Local Open Scope R_scope.

(** With exponent one half, [Math.pow] is the square root on a base that is
    not negative. *)
Lemma Math_pow_half (x : R) :
  0 <= x -> Math_pow (Finite x) (Finite 0.5) = Finite (sqrt x).
Proof.
  intros Hx. unfold Math_pow.
  destruct (Req_dec_T 0.5 0) as [Habs|_]; [lra|].
  destruct (Req_dec_T x 0) as [->|Hnz].
  - destruct (Rlt_dec 0 0.5) as [_|Habs]; [|lra]. now rewrite sqrt_0.
  - destruct (Rlt_dec 0 x) as [Hpos|Hneg]; [|lra].
    f_equal. replace 0.5 with (/ 2) by lra. now apply Rpower_sqrt.
Qed.

Lemma sqrt_unit_interval (t : R) : 0 <= t <= 1 -> 0 <= sqrt t <= 1.
Proof.
  intros [H0 H1]. split; [apply sqrt_pos|].
  rewrite <- sqrt_1. apply sqrt_le_1; lra.
Qed.

Lemma clamp_range (lo hi x : R) :
  lo <= hi -> lo <= Reference.clamp lo hi x <= hi.
Proof.
  intros Hle. unfold Reference.clamp.
  destruct (Rlt_dec x lo); [lra|]. destruct (Rlt_dec hi x); lra.
Qed.

Lemma clamp_id (lo hi x : R) : lo <= x <= hi -> Reference.clamp lo hi x = x.
Proof.
  intros [H0 H1]. unfold Reference.clamp.
  destruct (Rlt_dec x lo); [lra|]. destruct (Rlt_dec hi x); lra.
Qed.

Lemma clamp_Rmax_Rmin (lo hi x : R) :
  lo <= hi -> Rmax lo (Rmin hi x) = Reference.clamp lo hi x.
Proof.
  intros Hle. unfold Reference.clamp, Rmax, Rmin.
  destruct (Rlt_dec x lo), (Rlt_dec hi x), (Rle_dec hi x);
    try lra; destruct (Rle_dec lo _); lra.
Qed.

Lemma clamp_mono (lo hi x y : R) :
  lo <= hi -> x <= y -> Reference.clamp lo hi x <= Reference.clamp lo hi y.
Proof.
  intros Hle Hxy. unfold Reference.clamp.
  destruct (Rlt_dec x lo), (Rlt_dec y lo), (Rlt_dec hi x), (Rlt_dec hi y); lra.
Qed.

(** The value of the code on a finite reading, in closed form. *)
Lemma normalizePitch_finite (db : R) :
  normalizePitch (Finite db)
  = Finite (sqrt ((Reference.clamp (-60) (-10) db + 60) / 50) * 100).
Proof.
  pose proof (clamp_range (-60) (-10) db ltac:(lra)) as Hc.
  unfold normalizePitch. cbn [Math_max Math_min JS.sub JS.div JS.mul].
  rewrite clamp_Rmax_Rmin by lra.
  set (c := Reference.clamp (-60) (-10) db) in *.
  destruct (Req_dec_T (-10 - -60) 0) as [Habs|_]; [lra|].
  cbn [JS.mul JS.div].
  destruct (Req_dec_T 100 0) as [Habs|_]; [lra|].
  replace ((c - -60) / (-10 - -60) * 100 / 100) with ((c + 60) / 50) by lra.
  rewrite Math_pow_half by lra.
  cbn [JS.mul Math_max Math_min].
  pose proof (sqrt_unit_interval ((c + 60) / 50) ltac:(lra)) as Hs.
  rewrite clamp_Rmax_Rmin by lra. rewrite clamp_id by lra. reflexivity.
Qed.

End NormalizerFacts.

Section NormalizerClaims.

Local Open Scope R_scope.

Lemma reference_normalize_closed (db : R) :
  Reference.normalize db
  = sqrt ((Reference.clamp (-60) (-10) db + 60) / 50) * 100.
Proof.
  pose proof (clamp_range (-60) (-10) db ltac:(lra)) as Hc.
  unfold Reference.normalize.
  set (c := Reference.clamp (-60) (-10) db) in *.
  replace ((c - -60) / (-10 - -60) * 100 / 100) with ((c + 60) / 50) by lra.
  pose proof (sqrt_unit_interval ((c + 60) / 50) ltac:(lra)) as Hs.
  apply clamp_id. lra.
Qed.

Lemma sqrt_half_bounds : 0.7071 < sqrt (1 / 2) < 0.7072.
Proof.
  split.
  - replace 0.7071 with (sqrt (0.7071 * 0.7071)) by (apply sqrt_square; lra).
    apply sqrt_lt_1; lra.
  - replace 0.7072 with (sqrt (0.7072 * 0.7072)) by (apply sqrt_square; lra).
    apply sqrt_lt_1; lra.
Qed.

(** C1. On every real decibel reading the code computes the reference
    pipeline of the specification (clamp to [-60, -10], rescale linearly to
    [0, 100], square root curve, clamp to [0, 100]); it maps -60 to 0 and -10
    to 100 exactly, and -35 to the square root of one half times 100, which
    lies between 70.71 and 70.72. *)
Theorem normalizePitch_reference :
  (forall db : R, normalizePitch (Finite db) = Finite (Reference.normalize db))
  /\ normalizePitch (Finite (-60)) = Finite 0
  /\ normalizePitch (Finite (-10)) = Finite 100
  /\ normalizePitch (Finite (-35)) = Finite (sqrt (1 / 2) * 100)
  /\ 70.71 < sqrt (1 / 2) * 100 < 70.72.
Proof.
  assert (Hat : forall db, -60 <= db <= -10 ->
            normalizePitch (Finite db) = Finite (sqrt ((db + 60) / 50) * 100)).
  { intros db Hdb. rewrite normalizePitch_finite, clamp_id by lra. reflexivity. }
  split; [|split; [|split; [|split]]].
  - intros db. now rewrite normalizePitch_finite, reference_normalize_closed.
  - rewrite Hat by lra. replace ((-60 + 60) / 50) with 0 by lra.
    rewrite sqrt_0. f_equal. lra.
  - rewrite Hat by lra. replace ((-10 + 60) / 50) with 1 by lra.
    rewrite sqrt_1. f_equal. lra.
  - rewrite Hat by lra. do 3 f_equal. lra.
  - pose proof sqrt_half_bounds. lra.
Qed.

(** The three readings of C1 in binary64 arithmetic: 0 and 100 are exact,
    and -35 gives the double nearest to the square root of one half times
    100. A reading of [NaN] gives [NaN], an infinite one a bound. *)
Example normalizePitch_binary64 :
  Binary64.normalizePitch (-60)%float = 0%float
  /\ Binary64.normalizePitch (-10)%float = 100%float
  /\ Binary64.normalizePitch (-35)%float = 0x1.1ad7bc01366b8p+6%float
  /\ Binary64.normalizePitch PrimFloat.nan = PrimFloat.nan
  /\ Binary64.normalizePitch PrimFloat.neg_infinity = 0%float
  /\ Binary64.normalizePitch PrimFloat.infinity = 100%float.
Proof. vm_compute. repeat split. Qed.

(** The normalizer is monotone on all finite readings. *)
Lemma normalizePitch_mono (db1 db2 : R) :
  db1 <= db2 -> JS.le (normalizePitch (Finite db1)) (normalizePitch (Finite db2)).
Proof.
  intros Hle. rewrite !normalizePitch_finite. cbn [JS.le].
  pose proof (clamp_range (-60) (-10) db1 ltac:(lra)) as H1.
  pose proof (clamp_range (-60) (-10) db2 ltac:(lra)) as H2.
  pose proof (clamp_mono (-60) (-10) db1 db2 ltac:(lra) Hle) as H12.
  apply Rmult_le_compat_r; [lra|]. apply sqrt_le_1; lra.
Qed.

(** C8. [normalize] is monotonically non-decreasing on [-60, -10]: a reading
    that is not smaller gives a value that is not smaller. *)
Theorem normalizePitch_monotone (db1 db2 : R) :
  -60 <= db1 <= -10 -> -60 <= db2 <= -10 -> db1 <= db2 ->
  JS.le (normalizePitch (Finite db1)) (normalizePitch (Finite db2)).
Proof.
  intros _ _ Hle. now apply normalizePitch_mono.
Qed.

Lemma normalizePitch_monotone_witness :
  JS.le (normalizePitch (Finite (-60))) (normalizePitch (Finite (-35))).
Proof.
  apply (normalizePitch_monotone (-60) (-35)); lra.
Defined.

Lemma normalizePitch_finite_range (db : R) :
  in_display_range (normalizePitch (Finite db)).
Proof.
  rewrite normalizePitch_finite. cbn [in_display_range].
  pose proof (clamp_range (-60) (-10) db ltac:(lra)) as Hc.
  pose proof (sqrt_unit_interval
                ((Reference.clamp (-60) (-10) db + 60) / 50) ltac:(lra)). lra.
Qed.

(** An infinite reading is clamped like a finite one. *)
Lemma normalizePitch_infinite (negative : bool) :
  normalizePitch (Infinity negative)
  = normalizePitch (Finite (if negative then -60 else -10)).
Proof.
  destruct negative; unfold normalizePitch; cbn [Math_min Math_max].
  - rewrite (Rmin_right (-10) (-60)), (Rmax_left (-60) (-60)) by lra.
    reflexivity.
  - rewrite (Rmin_left (-10) (-10)) by lra. reflexivity.
Qed.

Lemma normalizePitch_NaN : normalizePitch NaN = NaN.
Proof.
  unfold normalizePitch. cbn [Math_min Math_max JS.sub JS.div JS.mul Math_pow].
  destruct (Req_dec_T 0.5 0) as [Habs|_]; [lra|]. reflexivity.
Qed.

Lemma normalizePitch_range (m : number) :
  m <> NaN -> in_display_range (normalizePitch m).
Proof.
  destruct m as [| negative | db]; intros Hm.
  - congruence.
  - rewrite normalizePitch_infinite. apply normalizePitch_finite_range.
  - apply normalizePitch_finite_range.
Qed.

End NormalizerClaims.

(** ** Facts about the rolling window *)

Section WindowFacts.

Context {A : Type}.

Implicit Types (l window samples : list A) (x : A).

(** [slice] with a negative start keeps the last elements. *)
Lemma Array_slice_last (n : nat) l :
  (0 < n)%nat -> Array_slice (- Z.of_nat n) l = skipn (length l - n) l.
Proof.
  intros Hn. unfold Array_slice.
  destruct (Z.ltb_spec (- Z.of_nat n) 0) as [_|Hge]; [|lia].
  f_equal. lia.
Qed.

(** One append keeps the last 600 of the old window followed by the sample. *)
Lemma pitchData_updater_last x l :
  pitchData_updater x l = skipn (length (l ++ [x]) - 600) (l ++ [x]).
Proof.
  unfold pitchData_updater, Array_spread_append, MAX_DATA_POINTS.
  destruct (Z.gtb_spec (Z.of_nat (length (l ++ [x]))) 600) as [Hgt|Hle].
  - apply (Array_slice_last 600 (l ++ [x])). lia.
  - replace (length (l ++ [x]) - 600)%nat with 0%nat by lia. reflexivity.
Qed.

Lemma pitchData_updater_length x l :
  (length l <= 600)%nat ->
  length (pitchData_updater x l) = Nat.min (S (length l)) 600.
Proof.
  intros Hl. rewrite pitchData_updater_last, length_skipn, length_app. simpl. lia.
Qed.

(** A window that respects the capacity holds, after any appends, the last
    600 values of what it held followed by what was appended. *)
Lemma appends_last samples : forall window,
  (length window <= 600)%nat ->
  appends samples window
  = skipn (length (window ++ samples) - 600) (window ++ samples).
Proof.
  induction samples as [|x samples IH]; intros window Hw.
  - simpl. rewrite app_nil_r.
    replace (length window - 600)%nat with 0%nat by lia. reflexivity.
  - change (appends (x :: samples) window)
      with (appends samples (pitchData_updater x window)).
    rewrite IH by (rewrite pitchData_updater_length by exact Hw; lia).
    rewrite pitchData_updater_last.
    set (d := (length (window ++ [x]) - 600)%nat).
    assert (Hd : (d <= length (window ++ [x]))%nat) by (unfold d; lia).
    assert (Hsplit : skipn d (window ++ [x]) ++ samples
                     = skipn d (window ++ x :: samples)).
    { replace (window ++ x :: samples) with ((window ++ [x]) ++ samples)
        by (rewrite <- app_assoc; reflexivity).
      rewrite (skipn_app d (window ++ [x]) samples).
      replace (d - length (window ++ [x]))%nat with 0%nat by lia. reflexivity. }
    rewrite Hsplit, skipn_skipn. f_equal.
    rewrite length_skipn. unfold d.
    rewrite !length_app. simpl. rewrite length_app in Hd. simpl in Hd. lia.
Qed.

End WindowFacts.

(** C2. Appending any sequence of N values to an empty window leaves exactly
    the last min(N, 600) of them, oldest first: the window is the sequence
    without its first N - 600 values, its length is min(N, 600), and after
    601 appends its first element is the value of the second append. *)
Theorem window_holds_last_600 (A : Type) (samples : list A) :
  let window := appends samples [] in
  window = skipn (length samples - 600) samples
  /\ length window = Nat.min (length samples) 600
  /\ (exists evicted, samples = evicted ++ window)
  /\ (length samples = 601%nat -> nth_error window 0 = nth_error samples 1).
Proof.
  cbv zeta.
  assert (Hw : appends samples [] = skipn (length samples - 600) samples).
  { rewrite appends_last by (simpl; lia). reflexivity. }
  rewrite Hw. repeat split.
  - rewrite length_skipn. lia.
  - exists (firstn (length samples - 600) samples).
    symmetry. apply firstn_skipn.
  - intros HN. rewrite HN. change (601 - 600)%nat with 1%nat.
    destruct samples as [|v1 samples]; reflexivity.
Qed.

Lemma window_holds_last_600_witness :
  nth_error (appends (seq 0 601) []) 0 = Some 1%nat.
Proof.
  destruct (window_holds_last_600 nat (seq 0 601)) as (_ & _ & _ & Hsecond).
  rewrite Hsecond by reflexivity. reflexivity.
Defined.

(** The 601 appends 0, 1, ..., 600 evict 0 and leave 1, ..., 600. *)
Example window_after_601_appends :
  appends (seq 0 601) [] = seq 1 600.
Proof. vm_compute. reflexivity. Qed.

(** ** Facts about [formatTime] *)

Section FormatFacts.

Local Open Scope Z_scope.

(** A number below ten prints as one digit. *)
Lemma Number_toString_digit (n : Z) :
  0 <= n < 10 -> String.length (Number_toString n) = 1%nat.
Proof.
  intros Hn. rewrite <- (Z2Nat.id n) by lia.
  assert (Hk : (Z.to_nat n < 10)%nat) by lia.
  revert Hk. generalize (Z.to_nat n). intros k Hk.
  do 10 (destruct k as [|k]; [reflexivity|]). lia.
Qed.

(** A decimal numeral of one digit denotes a number below ten. *)
Lemma one_digit_small (d : Decimal.uint) (p : positive) :
  Decimal.nb_digits d = 1%nat -> Pos.of_uint d = N.pos p -> (p < 10)%positive.
Proof.
  intros Hd Hp.
  destruct d as [|d|d|d|d|d|d|d|d|d|d]; try discriminate Hd;
    destruct d; try discriminate Hd;
    vm_compute in Hp; try discriminate Hp;
    injection Hp as <-; reflexivity.
Qed.

Lemma string_of_uint_length (d : Decimal.uint) :
  String.length (NilEmpty.string_of_uint d) = Decimal.nb_digits d.
Proof. induction d; simpl; congruence. Qed.

(** A number from ten on prints as two digits or more. *)
Lemma Number_toString_long (n : Z) :
  10 <= n -> (2 <= String.length (Number_toString n))%nat.
Proof.
  intros Hn. destruct n as [|p|p]; try lia.
  unfold Number_toString. cbn [Z.to_int NilZero.string_of_int].
  pose proof (Unsigned.to_uint_nonnil p) as Hnil.
  pose proof (DecimalPos.Unsigned.of_to p) as Hof.
  unfold NilZero.string_of_uint.
  destruct (Pos.to_uint p) as [|d|d|d|d|d|d|d|d|d|d] eqn:Hd;
    [congruence|..];
    rewrite string_of_uint_length;
    match goal with
    | |- (2 <= Decimal.nb_digits ?u)%nat =>
        destruct (Nat.eq_dec (Decimal.nb_digits u) 1%nat) as [H1|H1];
        [ pose proof (one_digit_small u p H1 Hof); lia
        | cbn [Decimal.nb_digits] in *; lia ]
    end.
Qed.

(** Padding to two characters with ["0"] puts one zero before a single
    character and leaves a longer string alone. *)
Lemma String_padStart_2 (s : string) :
  String_padStart s 2 "0"
  = if (String.length s =? 1)%nat then String "0" s
    else if (String.length s =? 0)%nat then "00"%string else s.
Proof.
  unfold String_padStart.
  destruct s as [|c [|c' s]]; reflexivity.
Qed.

Lemma padStart_is_pad2 (n : Z) :
  0 <= n -> String_padStart (Number_toString n) 2 "0" = pad2 n.
Proof.
  intros Hn. rewrite String_padStart_2. unfold pad2.
  destruct (Z.ltb_spec n 10) as [Hlt|Hge].
  - now rewrite Number_toString_digit by lia.
  - pose proof (Number_toString_long n Hge) as Hlen.
    destruct (Nat.eqb_spec (String.length (Number_toString n)) 1); [lia|].
    destruct (Nat.eqb_spec (String.length (Number_toString n)) 0); [lia|].
    reflexivity.
Qed.

Lemma formatTime_pad2 (ms : Z) :
  0 <= ms ->
  formatTime ms
  = (pad2 (ms / 1000 / 60) ++ ":" ++ pad2 ((ms / 1000) mod 60))%string.
Proof.
  intros Hms. unfold formatTime.
  assert (Hs : 0 <= ms / 1000) by (apply Z.div_pos; lia).
  rewrite Z.rem_mod_nonneg by lia.
  rewrite !padStart_is_pad2; [reflexivity| |].
  - apply Z.mod_pos_bound. lia.
  - apply Z.div_pos; lia.
Qed.

End FormatFacts.

(** C10. For a number of milliseconds that is not negative, [formatTime]
    renders the whole minutes and the seconds left over, each padded to two
    digits, around a colon. It has no cap of its own: 60000 gives "01:00",
    3660000 gives "61:00", and every count of minutes is displayed for some
    argument. *)
Theorem formatTime_minutes_seconds :
  (forall ms : Z, (0 <= ms)%Z ->
     formatTime ms
     = (pad2 (ms / 1000 / 60) ++ ":" ++ pad2 ((ms / 1000) mod 60))%string)
  /\ formatTime 60000 = "01:00"%string
  /\ formatTime 3660000 = "61:00"%string
  /\ (forall minutes : Z, (0 <= minutes)%Z ->
        formatTime (minutes * 60000) = (pad2 minutes ++ ":00")%string).
Proof.
  split; [exact formatTime_pad2|].
  split; [reflexivity|]. split; [reflexivity|].
  intros minutes Hm. rewrite formatTime_pad2 by lia.
  replace (minutes * 60000 / 1000)%Z with (minutes * 60)%Z
    by (apply Z.div_unique_exact; lia).
  rewrite Z.div_mul, Z.mod_mul by lia. reflexivity.
Qed.

Lemma formatTime_minutes_seconds_witness :
  formatTime 125999 = "02:05"%string
  /\ formatTime (100 * 60000) = "100:00"%string.
Proof.
  destruct formatTime_minutes_seconds as (Hfmt & _ & _ & Hcap).
  split.
  - rewrite (Hfmt 125999%Z) by lia. reflexivity.
  - rewrite (Hcap 100%Z) by lia. reflexivity.
Defined.

(** ** Facts about the sampling callback *)

Section SamplingFacts.

Context {B : Type} `{AudioBackend B}.

Implicit Types (w : world B) (status : Status.t) (m : number).

(** The world after a tick that carries the reading [m]. *)
Lemma onRecordingStatusUpdate_number w status m :
  Status.isRecording status = true ->
  Status.metering status = VNumber m ->
  exists w',
    onRecordingStatusUpdate status w = (Normal tt, w')
    /\ pitchData w' = pitchData_updater (normalizePitch m) (pitchData w)
    /\ pitch w' = Some (normalizePitch m)
    /\ timers w' = timers w /\ isRecording w' = isRecording w
    /\ recording w' = recording w /\ calls w' = calls w.
Proof.
  intros Hrec Hmet. unfold onRecordingStatusUpdate. rewrite Hrec, Hmet.
  cbn [typeof String.eqb Ascii.eqb Bool.eqb].
  eexists. split; [reflexivity|]. repeat split.
Qed.

(** A tick that carries no reading leaves the world as it was. *)
Lemma onRecordingStatusUpdate_ignored w status :
  Status.isRecording status = false
  \/ typeof (Status.metering status) <> "number"%string ->
  onRecordingStatusUpdate status w = (Normal tt, w).
Proof.
  intros Hcase. unfold onRecordingStatusUpdate.
  destruct (Status.isRecording status); [|reflexivity].
  destruct Hcase as [Hcase|Hcase]; [discriminate|].
  destruct (Status.metering status); try reflexivity.
  now contradiction Hcase.
Qed.

Lemma pitchData_updater_snoc {A : Type} (x : A) (l : list A) :
  pitchData_updater x l = skipn (length l + 1 - 600) l ++ [x].
Proof.
  rewrite pitchData_updater_last, length_app. simpl.
  rewrite skipn_app.
  replace (length l + 1 - 600 - length l)%nat with 0%nat by lia. reflexivity.
Qed.

Lemma Forall_skipn {A : Type} (P : A -> Prop) (n : nat) (l : list A) :
  Forall P l -> Forall P (skipn n l).
Proof.
  intros Hl. rewrite <- (firstn_skipn n l) in Hl.
  now apply Forall_app in Hl.
Qed.

End SamplingFacts.

(** C3. A tick whose status says the backend is recording and carries a
    numeric metering appends one sample, the normalized reading, at the end of
    the window (the oldest sample goes when the window is full). A tick whose
    status says it is not recording, or whose metering is missing or is not a
    number, is ignored: it completes normally and the world, the window in it,
    is what it was. *)
Theorem onRecordingStatusUpdate_appends_or_ignores
  (B : Type) (backend : AudioBackend B) (w : world B) (status : Status.t) :
  (forall m : number,
     Status.isRecording status = true ->
     Status.metering status = VNumber m ->
     exists w',
       onRecordingStatusUpdate status w = (Normal tt, w')
       /\ pitchData w'
          = skipn (length (pitchData w) + 1 - 600) (pitchData w)
              ++ [normalizePitch m]
       /\ pitchData w' = appends [normalizePitch m] (pitchData w))
  /\ (Status.isRecording status = false
      \/ typeof (Status.metering status) <> "number"%string ->
      onRecordingStatusUpdate status w = (Normal tt, w)).
Proof.
  split.
  - intros m Hrec Hmet.
    destruct (onRecordingStatusUpdate_number w status m Hrec Hmet)
      as (w' & Hrun & Hdata & _).
    exists w'. split; [exact Hrun|]. split; [|exact Hdata].
    rewrite Hdata. apply pitchData_updater_snoc.
  - apply onRecordingStatusUpdate_ignored.
Qed.

Lemma onRecordingStatusUpdate_appends_or_ignores_witness :
  let w := initial (quiet_then_loud false) 0 in
  (exists w',
     onRecordingStatusUpdate
       {| Status.isRecording := true; Status.metering := VNumber (Finite (-10)) |} w
     = (Normal tt, w')
     /\ pitchData w' = [normalizePitch (Finite (-10))])
  /\ onRecordingStatusUpdate
       {| Status.isRecording := false; Status.metering := VNumber (Finite (-10)) |} w
     = (Normal tt, w)
  /\ onRecordingStatusUpdate
       {| Status.isRecording := true; Status.metering := VUndefined |} w
     = (Normal tt, w).
Proof.
  cbv zeta. split; [|split].
  - destruct (onRecordingStatusUpdate_appends_or_ignores script scripted
                (initial (quiet_then_loud false) 0)
                {| Status.isRecording := true;
                   Status.metering := VNumber (Finite (-10)) |})
      as [Happend _].
    destruct (Happend (Finite (-10)) eq_refl eq_refl) as (w' & Hrun & Hdata & _).
    exists w'. split; [exact Hrun|exact Hdata].
  - apply (proj2 (onRecordingStatusUpdate_appends_or_ignores
                    script scripted _ _)).
    left. reflexivity.
  - apply (proj2 (onRecordingStatusUpdate_appends_or_ignores
                    script scripted _ _)).
    right. discriminate.
Defined.

(** C7, as the code has it. A reading that is a number other than [NaN],
    finite or infinite, is stored as a finite value from 0 to 100, so a
    window of such values stays one after the tick. ([NaN] also passes the
    test [typeof metering === 'number'].) *)
Theorem samples_in_display_range
  (B : Type) (backend : AudioBackend B) (w : world B) (status : Status.t) :
  (forall m : number, Status.metering status = VNumber m -> m <> NaN) ->
  Forall in_display_range (pitchData w) ->
  (forall m : number, Status.metering status = VNumber m ->
     in_display_range (normalizePitch m))
  /\ Forall in_display_range (pitchData (snd (onRecordingStatusUpdate status w))).
Proof.
  intros Hnum Hwin. split.
  - intros m Hm. apply normalizePitch_range. now apply Hnum.
  - destruct (Status.isRecording status) eqn:Hrec.
    + destruct (Status.metering status) as [| |b|m|s|] eqn:Hmet;
        try (rewrite onRecordingStatusUpdate_ignored
               by (right; rewrite Hmet; discriminate); exact Hwin).
      destruct (onRecordingStatusUpdate_number w status m Hrec Hmet)
        as (w' & Hrun & Hdata & _).
      rewrite Hrun. cbn [snd]. rewrite Hdata, pitchData_updater_snoc.
      apply Forall_app. split; [now apply Forall_skipn|].
      constructor; [|constructor]. apply normalizePitch_range. now apply Hnum.
    + rewrite onRecordingStatusUpdate_ignored by (now left). exact Hwin.
Qed.

Lemma samples_in_display_range_witness :
  Forall in_display_range
    (pitchData
       (snd (onRecordingStatusUpdate
               {| Status.isRecording := true;
                  Status.metering := VNumber (Infinity false) |}
               (initial (quiet_then_loud false) 0)))).
Proof.
  apply (samples_in_display_range script scripted).
  - intros m Hm. injection Hm as <-. discriminate.
  - constructor.
Defined.

(** C7, the input that the claim as stated does not survive: the reading
    [NaN] passes the numeric test, and the sample stored for it is [NaN],
    which is no finite number from 0 to 100. *)
Lemma NaN_reading_is_stored :
  let status := {| Status.isRecording := true; Status.metering := VNumber NaN |} in
  typeof (Status.metering status) = "number"%string
  /\ pitchData (snd (onRecordingStatusUpdate status (initial (quiet_then_loud false) 0)))
     = [NaN]
  /\ ~ in_display_range NaN.
Proof.
  cbv zeta. split; [reflexivity|]. split.
  - destruct (onRecordingStatusUpdate_number
                (initial (quiet_then_loud false) 0)
                {| Status.isRecording := true; Status.metering := VNumber NaN |}
                NaN eq_refl eq_refl) as (w' & Hrun & Hdata & _).
    rewrite Hrun. cbn [snd]. rewrite Hdata, normalizePitch_NaN. reflexivity.
  - intros Hrange. exact Hrange.
Qed.

(** ** Facts about the controller *)

Section ControllerFacts.

Context {B : Type} `{AudioBackend B}.

Implicit Types (w : world B) (captured : option handle) (t : timer).

Local Open Scope Z_scope.

Lemma remove_timer_hit t id ts :
  timer_id t = id -> remove_timer id (t :: ts) = remove_timer id ts.
Proof.
  intros <-. unfold remove_timer. simpl. now rewrite Pos.eqb_refl.
Qed.

Lemma remove_timer_miss t id ts :
  timer_id t <> id -> remove_timer id (t :: ts) = t :: remove_timer id ts.
Proof.
  intros Hne. unfold remove_timer. simpl.
  now rewrite (proj2 (Pos.eqb_neq _ _) Hne).
Qed.

(** What [stopRecording] does, whatever the refs hold and whatever the
    backend answers: it completes normally, clears the timers the refs name,
    empties the refs and leaves the session idle. *)
Lemma stopRecording_run captured w :
  exists w',
    stopRecording captured w = (Normal tt, w')
    /\ timers w'
       = cleared (field_interval (timerRef w))
           (cleared (field_timeout (timerRef w))
              (cleared (intervalRef w) (timers w)))
    /\ intervalRef w' = None /\ timerRef w' = TRnull
    /\ recording w' = None /\ isRecording w' = false
    /\ now w' = now w /\ elapsedTime w' = elapsedTime w
    /\ next_timer_id w' = next_timer_id w
    /\ pitchData w' = pitchData w.
Proof.
  destruct w as [rec pit dat isrec el iref tref nw ts nid con aud cls].
  unfold stopRecording, bind, gets, try_catch, call.
  destruct iref as [i|], tref as [|t0|[t0|] [i0|]], captured as [h|];
    cbn -[remove_timer];
    try (destruct (stopAndUnloadAsync h aud) as [[[]|err] b]; cbn -[remove_timer]);
    eexists; (split; [reflexivity|]); repeat split.
Qed.

(** With empty refs and no [recording] in sight, [stopRecording] changes
    nothing. *)
Lemma stopRecording_noop w :
  intervalRef w = None -> timerRef w = TRnull ->
  recording w = None -> isRecording w = false ->
  stopRecording None w = (Normal tt, w).
Proof.
  destruct w as [rec pit dat isrec el iref tref nw ts nid con aud cls].
  cbn. intros -> -> -> ->. reflexivity.
Qed.

Lemma stopRecording_calls captured w :
  calls (snd (stopRecording captured w))
  = calls w ++ match captured with
               | Some h => [CallStopAndUnload h]
               | None => []
               end.
Proof.
  destruct w as [rec pit dat isrec el iref tref nw ts nid con aud cls].
  unfold stopRecording, bind, gets, try_catch, call.
  destruct iref as [i|], tref as [|t0|[t0|] [i0|]], captured as [h|];
    cbn -[remove_timer];
    try (destruct (stopAndUnloadAsync h aud) as [[[]|err] b]; cbn -[remove_timer]);
    rewrite ?app_nil_r; reflexivity.
Qed.

(** A failing release is written to the console and goes no further. *)
Lemma stopRecording_failure h err b w :
  stopAndUnloadAsync h (audio w) = (Throw err, b) ->
  console (snd (stopRecording (Some h) w))
  = console w ++ [("Error stopping recording:" ++ " " ++ err)%string].
Proof.
  destruct w as [rec pit dat isrec el iref tref nw ts nid con aud cls].
  unfold stopRecording, bind, gets, try_catch, call. cbn [audio]. intros Hfail.
  destruct iref as [i|], tref as [|t0|[t0|] [i0|]];
    cbn -[remove_timer append]; rewrite Hfail; reflexivity.
Qed.

End ControllerFacts.



(** ** The life of a session *)

Section SessionFacts.

Context {B : Type} `{AudioBackend B}.

Implicit Types (w : world B) (captured c : option handle) (h : handle).
Implicit Types (a b e : positive) (ds de f : Z).

Local Open Scope Z_scope.

(** [startRecording] never throws. Either a call to the backend failed, and
    then nothing was scheduled and [isRecording] is as before, or the session
    runs: the window and the elapsed time are reset and the three timers are
    queued behind the ones already there. *)
Lemma startRecording_run captured w :
  exists w',
    startRecording captured w = (Normal tt, w')
    /\ now w' = now w
    /\ ((isRecording w' = isRecording w /\ timers w' = timers w
         /\ intervalRef w' = intervalRef w /\ timerRef w' = timerRef w
         /\ elapsedTime w' = elapsedTime w)
        \/ (exists h,
              let a := next_timer_id w in
              let b := Pos.succ a in
              let e := Pos.succ b in
              isRecording w' = true /\ recording w' = Some h
              /\ pitchData w' = [] /\ elapsedTime w' = 0
              /\ intervalRef w' = Some a
              /\ timerRef w' = TRobject (Some b) (Some e)
              /\ timers w'
                 = timers w
                   ++ [ sample_timer a (now w + REFRESH_INTERVAL) h;
                        deadline_timer b (now w) captured;
                        elapsed_timer e (now w + 1000) (now w) ])).
Proof.
  destruct w as [rec pit dat isrec el iref tref nw ts nid con aud cls].
  unfold startRecording, try_catch, bind, call, construct_Recording.
  cbn [audio].
  destruct (requestPermissionsAsync aud) as [[[]|err] b1];
    [|start_failed].
  cbn [audio set_audio].
  destruct (setAudioModeAsync b1) as [[[]|err] b2];
    [|start_failed].
  cbn [audio set_audio].
  destruct (new_Recording b2) as [h b3].
  cbn [audio set_audio].
  destruct (prepareToRecordAsync h b3) as [[[]|err] b4];
    [|start_failed].
  cbn.
  destruct (startAsync h b4) as [[[]|err] b5];
    [|start_failed].
  cbn. eexists. split; [reflexivity|]. split; [reflexivity|].
  right. exists h. cbn. repeat split. rewrite <- !app_assoc. reflexivity.
Qed.

(** From an idle world a press of the button leaves an idle world or opens
    a session at the instant of the press. *)
Lemma start_from_idle w :
  idle w ->
  let w' := snd (startRecording (recording w) w) in
  idle w' \/ session (now w) (recording w) w'.
Proof.
  intros (Hisrec & Hts & Hiref & Htref). cbv zeta.
  destruct (startRecording_run (recording w) w)
    as (w' & Hrun & Hnow & [Hfail | (h & Hok)]); rewrite Hrun; cbn [snd].
  - left. destruct Hfail as (H1 & H2 & H3 & H4 & _). unfold idle.
    rewrite H1, H2, H3, H4. now repeat split.
  - right. cbv zeta in Hok.
    destruct Hok as (Hrec & _ & _ & Hel & Hi & Ht & Htimers).
    rewrite Hts in Htimers. cbn [app] in Htimers.
    exists h, (next_timer_id w), (Pos.succ (next_timer_id w)),
      (Pos.succ (Pos.succ (next_timer_id w))),
      (now w + REFRESH_INTERVAL), (now w + 1000).
    rewrite Hnow, Hel. unfold RECORDING_TIME_LIMIT, REFRESH_INTERVAL.
    repeat split; try assumption; try lia.
Qed.

(** The sampling tick touches the window and the backend, and nothing of
    the session's control. *)
Lemma run_sample_frame h w :
  let w' := snd (run_callback (SampleTick h) w) in
  timers w' = timers w /\ intervalRef w' = intervalRef w
  /\ timerRef w' = timerRef w /\ isRecording w' = isRecording w
  /\ elapsedTime w' = elapsedTime w /\ now w' = now w
  /\ recording w' = recording w.
Proof.
  destruct w as [rec pit dat isrec el iref tref nw ts nid con aud cls].
  unfold run_callback, bind, call. cbn [audio].
  destruct (getStatusAsync h aud) as [[[[] met]|err] b];
    unfold onRecordingStatusUpdate; cbn; try (now repeat split).
  destruct met; cbn; now repeat split.
Qed.

Lemma rearm_sample a b e ds de f h (t0 : Z) c :
  a <> b -> a <> e ->
  rearm (sample_timer a ds h) f
        [sample_timer a ds h; deadline_timer b t0 c; elapsed_timer e de t0]
  = [sample_timer a (f + REFRESH_INTERVAL) h; deadline_timer b t0 c;
     elapsed_timer e de t0].
Proof.
  intros Hab Hae. unfold rearm. cbn.
  rewrite Pos.eqb_refl.
  rewrite (proj2 (Pos.eqb_neq b a)), (proj2 (Pos.eqb_neq e a)) by congruence.
  reflexivity.
Qed.

Lemma rearm_elapsed a b e ds de f h (t0 : Z) c :
  a <> e -> b <> e ->
  rearm (elapsed_timer e de t0) f
        [sample_timer a ds h; deadline_timer b t0 c; elapsed_timer e de t0]
  = [sample_timer a ds h; deadline_timer b t0 c;
     elapsed_timer e (f + 1000) t0].
Proof.
  intros Hae Hbe. unfold rearm. cbn.
  rewrite Pos.eqb_refl.
  rewrite (proj2 (Pos.eqb_neq a e)), (proj2 (Pos.eqb_neq b e)) by congruence.
  reflexivity.
Qed.

Lemma rearm_deadline a b e ds de f h (t0 : Z) c :
  a <> b -> b <> e ->
  rearm (deadline_timer b t0 c) f
        [sample_timer a ds h; deadline_timer b t0 c; elapsed_timer e de t0]
  = [sample_timer a ds h; elapsed_timer e de t0].
Proof.
  intros Hab Hbe. unfold rearm. cbn [period deadline_timer timer_id].
  rewrite remove_timer_miss by (cbn; congruence).
  rewrite remove_timer_hit by reflexivity.
  rewrite remove_timer_miss by (cbn; congruence).
  reflexivity.
Qed.

(** [stopRecording] empties a queue that holds what the refs name. *)
Lemma stop_clears captured w a b e (t1 t2 t3 : timer) :
  intervalRef w = Some a -> timerRef w = TRobject (Some b) (Some e) ->
  timer_id t1 = a -> timer_id t3 = e ->
  (timers w = [t1; t2; t3] /\ timer_id t2 = b \/ timers w = [t1; t3]) ->
  let w' := snd (stopRecording captured w) in
  idle w' /\ recording w' = None /\ now w' = now w
  /\ elapsedTime w' = elapsedTime w.
Proof.
  intros Hi Ht H1 H3 Hts. cbv zeta.
  destruct (stopRecording_run captured w)
    as (w' & Hrun & Htimers & Hiref & Htref & Hrec & Hisrec & Hnow & Hel & _).
  rewrite Hrun. cbn [snd].
  rewrite Hi, Ht in Htimers. cbn [field_interval field_timeout cleared] in Htimers.
  assert (Hnil : timers w' = []).
  { rewrite Htimers. destruct Hts as [[-> H2] | ->].
    - rewrite (remove_timer_hit t1 a) by assumption.
      destruct (Pos.eq_dec (timer_id t2) a) as [E2|E2];
        [rewrite (remove_timer_hit t2 a) by assumption
        |rewrite (remove_timer_miss t2 a) by assumption];
        destruct (Pos.eq_dec (timer_id t3) a) as [E3|E3];
        [rewrite (remove_timer_hit t3 a) by assumption
        |rewrite (remove_timer_miss t3 a) by assumption
        |rewrite (remove_timer_hit t3 a) by assumption
        |rewrite (remove_timer_miss t3 a) by assumption];
        unfold remove_timer; cbn; rewrite ?H2, ?H3, ?Pos.eqb_refl; cbn;
        try reflexivity;
        destruct (Pos.eqb_spec e b); cbn; rewrite ?H3, ?Pos.eqb_refl;
        reflexivity.
    - rewrite (remove_timer_hit t1 a) by assumption.
      destruct (Pos.eq_dec (timer_id t3) a) as [E3|E3];
        [rewrite (remove_timer_hit t3 a) by assumption
        |rewrite (remove_timer_miss t3 a) by assumption];
        unfold remove_timer; cbn; rewrite ?H3, ?Pos.eqb_refl; cbn;
        try reflexivity;
        destruct (Pos.eqb_spec e b); cbn; rewrite ?H3, ?Pos.eqb_refl;
        reflexivity. }
  unfold idle. now repeat split.
Qed.

Lemma session_remaining (t0 : Z) c w :
  session t0 c w -> 0 <= remaining t0 w.
Proof.
  intros (h & a & b & e & ds & de & _ & _ & _ & Hts & _ & _ & Hds & Hde & _).
  unfold remaining. rewrite Hts. cbn.
  time_lia.
Qed.

(** One timer fires in a session: the session goes on, nearer to its end, or
    it was the deadline and the world is idle at the instant of the deadline. *)
Lemma session_fires (t0 : Z) c w w' :
  session t0 c w -> fires w w' ->
  (session t0 c w' /\ remaining t0 w' + 100 <= remaining t0 w)
  \/ (idle w' /\ recording w' = None
      /\ now w' = t0 + RECORDING_TIME_LIMIT
      /\ elapsedTime w' = elapsedTime w).
Proof.
  intros (h & a & b & e & ds & de & Hisrec & Hi & Ht & Hts & (Hab & Hae & Hbe)
          & Hnow & Hds & Hde & Hel) Hfires.
  destruct Hfires as [t w [Hin Hmin]].
  rewrite Hts in Hin, Hmin.
  assert (Hmin_s := Hmin _ (or_introl eq_refl)).
  assert (Hmin_d := Hmin _ (or_intror (or_introl eq_refl))).
  assert (Hmin_e := Hmin _ (or_intror (or_intror (or_introl eq_refl)))).
  clear Hmin. cbn [due sample_timer deadline_timer elapsed_timer] in *.
  unfold RECORDING_TIME_LIMIT, REFRESH_INTERVAL in *.
  destruct Hin as [<-|[<-|[<-|[]]]];
    cbn [due sample_timer deadline_timer elapsed_timer] in *;
    unfold RECORDING_TIME_LIMIT, REFRESH_INTERVAL in *.
  - (* the sampling tick *)
    left. unfold fire. cbn [due timer_callback sample_timer timers set_now
                            next_timer_id].
    rewrite Hts, rearm_sample by assumption.
    rewrite Z.max_r by lia.
    match goal with |- context [run_callback _ ?w2] =>
      destruct (run_sample_frame h w2) as (F1 & F2 & F3 & F4 & F5 & F6 & F7);
      set (w3 := snd (run_callback (SampleTick h) w2)) in *
    end.
    cbn in F1, F2, F3, F4, F5, F6.
    split.
    + exists h, a, b, e, (ds + 100), de.
      rewrite F1, F2, F3, F4, F5, F6.
      unfold RECORDING_TIME_LIMIT, REFRESH_INTERVAL.
      repeat split; try assumption; try lia.
    + unfold remaining. rewrite F1, Hts. cbn.
      time_lia.
  - (* the deadline *)
    right. unfold fire. cbn [due timer_callback deadline_timer timers set_now
                             next_timer_id run_callback].
    rewrite Hts, rearm_deadline by assumption.
    unfold RECORDING_TIME_LIMIT. rewrite Z.max_r by lia.
    match goal with |- context [stopRecording _ ?w2] =>
      destruct (stop_clears c w2 a b e (sample_timer a ds h)
                  (deadline_timer b t0 c) (elapsed_timer e de t0))
        as (Hidle & Hrec & Hn & He);
      [exact Hi | exact Ht | reflexivity | reflexivity
      | right; reflexivity | ]
    end.
    repeat split; try apply Hidle; assumption.
  - (* the elapsed time tick *)
    left. unfold fire. cbn [due timer_callback elapsed_timer timers set_now
                            next_timer_id run_callback].
    rewrite Hts, rearm_elapsed by assumption.
    rewrite Z.max_r by lia.
    unfold bind, Date_now, gets, setElapsedTime, modify. cbn.
    split.
    + exists h, a, b, e, ds, (de + 1000).
      unfold RECORDING_TIME_LIMIT, REFRESH_INTERVAL.
      repeat split; cbn; try assumption; try lia.
    + unfold remaining. rewrite Hts. cbn.
      time_lia.
Qed.

(** Nothing fires in an idle world. *)
Lemma idle_quiet w w' : idle w -> ~ fires w w'.
Proof.
  intros (_ & Hts & _) Hfires. destruct Hfires as [t w [Hin _]].
  rewrite Hts in Hin. destruct Hin.
Qed.

Lemma ended_rtc (t0 : Z) w w' : ended t0 w -> rtc fires w w' -> w' = w.
Proof.
  intros (Hidle & _) Hrtc. destruct Hrtc as [|w w1 w2 Hstep _]; [reflexivity|].
  now apply idle_quiet in Hstep.
Qed.

Lemma session_elapsed (t0 : Z) c w :
  session t0 c w -> 0 <= elapsedTime w <= RECORDING_TIME_LIMIT.
Proof.
  intros (h & a & b & e & ds & de & _ & _ & _ & _ & _ & Hnow & _ & _ & Hel).
  lia.
Qed.

Lemma session_ends (t0 : Z) c w w' :
  session t0 c w -> idle w' -> recording w' = None ->
  now w' = t0 + RECORDING_TIME_LIMIT -> elapsedTime w' = elapsedTime w ->
  ended t0 w'.
Proof.
  intros Hs Hidle Hrec Hnow Hel.
  pose proof (session_elapsed t0 c w Hs) as Hbound.
  unfold ended. rewrite Hel. auto.
Qed.

(** However the timers fire, the session goes on or has been ended by its
    deadline. *)
Lemma session_rtc (t0 : Z) c w w' :
  session t0 c w -> rtc fires w w' -> session t0 c w' \/ ended t0 w'.
Proof.
  intros Hs Hrtc. induction Hrtc as [w|w w1 w2 Hstep Hrtc IH]; [now left|].
  destruct (session_fires t0 c w w1 Hs Hstep)
    as [[Hs1 _] | (Hidle & Hrec & Hnow & Hel)].
  - now apply IH.
  - right.
    assert (Hend : ended t0 w1) by (now apply (session_ends t0 c w)).
    now rewrite (ended_rtc t0 w1 w2 Hend Hrtc).
Qed.

Lemma next_timer_none (ts : list timer) : next_timer ts = None -> ts = [].
Proof.
  destruct ts as [|t1 ts]; [reflexivity|]. cbn [next_timer].
  destruct (next_timer ts) as [t'|]; [destruct (due t' <? due t1)|];
    discriminate.
Qed.

(** The loop picks a timer that may fire. *)
Lemma next_timer_earliest (ts : list timer) (t : timer) :
  next_timer ts = Some t -> earliest t ts.
Proof.
  revert t. induction ts as [|t1 ts IH]; intros t Hnext; [discriminate|].
  cbn [next_timer] in Hnext.
  destruct (next_timer ts) as [t'|] eqn:Hrest.
  - destruct (IH t' eq_refl) as [Hin Hmin].
    destruct (Z.ltb_spec (due t') (due t1)) as [Hlt|Hge];
      injection Hnext as <-; split.
    + now right.
    + intros t2 [<-|Hin2]; [lia|now apply Hmin].
    + now left.
    + intros t2 [<-|Hin2]; [lia|]. specialize (Hmin t2 Hin2). lia.
  - injection Hnext as <-. rewrite (next_timer_none ts Hrest).
    split; [now left|]. intros t2 [<-|[]]. lia.
Qed.

Lemma tick_fires w : timers w <> [] -> fires w (tick w).
Proof.
  intros Hne. unfold tick.
  destruct (next_timer (timers w)) as [t|] eqn:Hnext.
  - constructor. now apply next_timer_earliest.
  - now apply next_timer_none in Hnext.
Qed.

(** The loop reaches the deadline: a session is ended after a number of
    ticks. *)
Lemma session_reaches_end (t0 : Z) c (n : nat) : forall w,
  session t0 c w -> remaining t0 w <= Z.of_nat n * 100 ->
  exists k, ended t0 (run k w) /\ rtc fires w (run k w).
Proof.
  induction n as [|n IH]; intros w Hs Hrem.
  - assert (Hne : timers w <> []).
    { destruct Hs as (h & a & b & e & ds & de & _ & _ & _ & -> & _). discriminate. }
    pose proof (tick_fires w Hne) as Hstep.
    destruct (session_fires t0 c w (tick w) Hs Hstep)
      as [[Hs1 Hdec] | (Hidle & Hrec & Hnow & Hel)].
    + pose proof (session_remaining t0 c (tick w) Hs1). lia.
    + exists 1%nat. cbn [run]. split.
      * now apply (session_ends t0 c w).
      * now apply rtc_once.
  - assert (Hne : timers w <> []).
    { destruct Hs as (h & a & b & e & ds & de & _ & _ & _ & -> & _). discriminate. }
    pose proof (tick_fires w Hne) as Hstep.
    destruct (session_fires t0 c w (tick w) Hs Hstep)
      as [[Hs1 Hdec] | (Hidle & Hrec & Hnow & Hel)].
    + destruct (IH (tick w) Hs1 ltac:(lia)) as (k & Hend & Hrtc).
      exists (S k). cbn [run]. split; [exact Hend|].
      now apply rtc_l with (tick w).
    + exists 1%nat. cbn [run]. split.
      * now apply (session_ends t0 c w).
      * now apply rtc_once.
Qed.

End SessionFacts.

(** ** The timers of the screen *)

Section ScreenInvariant.

Context {B : Type} `{AudioBackend B}.

Implicit Types (w : world B) (captured : option handle).

Local Open Scope Z_scope.

(** Moving the clock to an instant at which no timer is due yet keeps the
    shape of the world. *)
Lemma idle_set_now (at_time : Z) w : idle w -> idle (set_now at_time w).
Proof. intros Hidle. exact Hidle. Qed.

(** Whatever was pressed and whatever fired, the screen is idle or in a
    session whose three timers are the whole queue. *)
Lemma screen_invariant w :
  reachable w ->
  idle w
  \/ exists a b e (t1 t2 t3 : timer),
       intervalRef w = Some a /\ timerRef w = TRobject (Some b) (Some e)
       /\ timer_id t1 = a /\ timer_id t2 = b /\ timer_id t3 = e
       /\ timers w = [t1; t2; t3] /\ isRecording w = true
       /\ exists (t0 : Z) c, session t0 c w.
Proof.
  intros (b0 & t & Hrtc). revert w Hrtc. apply rtc_ind_r.
  - left. now repeat split.
  - intros w1 w2 _ Hstep IH.
    assert (Hshape : forall w' (t0 : Z) c, session t0 c w' ->
              exists a b e (t1 t2 t3 : timer),
                intervalRef w' = Some a
                /\ timerRef w' = TRobject (Some b) (Some e)
                /\ timer_id t1 = a /\ timer_id t2 = b /\ timer_id t3 = e
                /\ timers w' = [t1; t2; t3] /\ isRecording w' = true
                /\ exists (t0 : Z) c, session t0 c w').
    { intros w' t0 c Hs.
      pose proof Hs as (h & a & b & e & ds & de & Hisrec & Hi & Ht & Hts & _).
      exists a, b, e, (sample_timer a ds h), (deadline_timer b t0 c),
        (elapsed_timer e de t0).
      repeat (split; [first [assumption|reflexivity]|]). now exists t0, c. }
    destruct Hstep as [w1 w2 Hfires | w1 at_time Hnow Hdue].
    + destruct IH as [Hidle | (a & b & e & t1 & t2 & t3 & _ & _ & _ & _ & _
                               & _ & _ & t0 & c & Hs)].
      * now apply idle_quiet in Hfires.
      * destruct (session_fires t0 c w1 w2 Hs Hfires) as [[Hs2 _] | [Hidle _]].
        -- right. now apply (Hshape w2 t0 c).
        -- now left.
    + unfold press.
      destruct IH as [Hidle | (a & b & e & t1 & t2 & t3 & Hi & Ht & H1 & H2 & H3
                               & Hts & Hisrec & _)].
      * pose proof (idle_set_now at_time w1 Hidle) as Hidle'.
        destruct Hidle' as (Hoff & Hrest).
        rewrite Hoff.
        destruct (start_from_idle (set_now at_time w1))
          as [Hidle2 | Hs2]; [now split| now left |].
        right. now apply (Hshape _ _ _ Hs2).
      * change (isRecording (set_now at_time w1)) with (isRecording w1).
        rewrite Hisrec. left.
        apply (stop_clears (recording (set_now at_time w1)) (set_now at_time w1)
                 a b e t1 t2 t3); try assumption.
        left. now split.
Qed.

End ScreenInvariant.



Section DeadlineFacts.

Context {B : Type} `{AudioBackend B}.

Local Open Scope Z_scope.

(** What the display shows for an elapsed time within the limit. *)
Lemma display_within_limit (ms : Z) :
  0 <= ms <= RECORDING_TIME_LIMIT ->
  exists seconds,
    0 <= seconds <= 60
    /\ formatTime ms
       = (pad2 (seconds / 60) ++ ":" ++ pad2 (seconds mod 60))%string.
Proof.
  unfold RECORDING_TIME_LIMIT. intros Hms. exists (ms / 1000). split.
  - split; [apply Z.div_pos; lia|].
    apply Z.div_le_upper_bound; lia.
  - apply formatTime_pad2. lia.
Qed.

Lemma session_deadline_pending (t0 : Z) (c : option handle) (w : world B) :
  session t0 c w ->
  now w <= t0 + RECORDING_TIME_LIMIT
  /\ exists id, In (deadline_timer id t0 c) (timers w).
Proof.
  intros (h & a & b & e & ds & de & _ & _ & _ & Hts & _ & Hnow & _).
  split; [lia|]. exists b. rewrite Hts. right. now left.
Qed.

(** A start that succeeds from an idle world opens a session, and the loop
    ends it at the deadline. *)
Lemma start_opens_session (w0 w1 : world B) :
  idle w0 -> startRecording (recording w0) w0 = (Normal tt, w1) ->
  isRecording w1 = true ->
  session (now w0) (recording w0) w1
  /\ remaining (now w0) w1 <= Z.of_nat 1200 * 100.
Proof.
  intros Hidle Hstart Hon.
  destruct (startRecording_run (recording w0) w0)
    as (w1' & Hrun & _ & [Hfail | (h & Hok)]);
    rewrite Hstart in Hrun; injection Hrun as <-.
  - destruct Hfail as (Hsame & _). destruct Hidle as [Hoff _]. congruence.
  - split.
    + destruct (start_from_idle w0 Hidle) as [Hidle1 | Hs];
        rewrite Hstart in *; cbn [snd] in *; [|exact Hs].
      destruct Hidle1 as [Hoff _]. congruence.
    + cbv zeta in Hok. destruct Hok as (_ & _ & _ & _ & _ & _ & Hts).
      destruct Hidle as (_ & Hnil & _). rewrite Hnil in Hts.
      unfold remaining. rewrite Hts. cbn.
      time_lia.
Qed.

Lemma deadline_session_end (w0 w1 : world B) :
  idle w0 -> startRecording (recording w0) w0 = (Normal tt, w1) ->
  isRecording w1 = true ->
  exists n,
    isRecording (run n w1) = false /\ recording (run n w1) = None
    /\ timers (run n w1) = []
    /\ now (run n w1) = now w0 + RECORDING_TIME_LIMIT
    /\ rtc fires w1 (run n w1).
Proof.
  intros Hidle Hstart Hon.
  destruct (start_opens_session w0 w1 Hidle Hstart Hon) as [Hs Hrem].
  destruct (session_reaches_end _ _ 1200 w1 Hs Hrem)
    as (k & ((Hoff & Hts & _) & Hnone & Hnow & _) & Hrtc).
  exists k. now repeat split.
Qed.

End DeadlineFacts.

(** C5. A start that succeeds queues a one-shot timer due 60000 ms later
    whose function is [stopRecording]. With no press of the button, however
    the timers fire: while the screen is recording the clock has not passed
    that instant and the deadline is still queued, so no timer due later
    fires before it; the elapsed time on display never exceeds 60000 ms, that
    is "01:00"; and the event loop reaches the deadline, after which the
    screen is not recording and no timer is left. *)
Theorem deadline_ends_session
  (B : Type) (backend : AudioBackend B) (w0 w1 : world B) :
  idle w0 ->
  startRecording (recording w0) w0 = (Normal tt, w1) ->
  isRecording w1 = true ->
  let startTime := now w0 in
  let deadline := (startTime + RECORDING_TIME_LIMIT)%Z in
  (exists id,
     In (deadline_timer id startTime (recording w0)) (timers w1)
     /\ due (deadline_timer id startTime (recording w0)) = (startTime + 60000)%Z
     /\ period (deadline_timer id startTime (recording w0)) = None
     /\ run_callback (timer_callback (deadline_timer id startTime (recording w0)))
        = stopRecording (recording w0))
  /\ (forall w, rtc fires w1 w ->
        (isRecording w = true ->
           (now w <= deadline)%Z
           /\ exists id, In (deadline_timer id startTime (recording w0)) (timers w))
        /\ (isRecording w = false -> now w = deadline /\ timers w = [])
        /\ (0 <= elapsedTime w <= 60000)%Z
        /\ exists seconds,
             (0 <= seconds <= 60)%Z
             /\ formatTime (elapsedTime w)
                = (pad2 (seconds / 60) ++ ":" ++ pad2 (seconds mod 60))%string)
  /\ formatTime 60000 = "01:00"%string
  /\ (exists n,
        isRecording (run n w1) = false /\ recording (run n w1) = None
        /\ timers (run n w1) = [] /\ now (run n w1) = deadline
        /\ rtc fires w1 (run n w1)).
Proof.
  intros Hidle Hstart Hrec. cbv zeta.
  destruct (start_opens_session w0 w1 Hidle Hstart Hrec) as [Hs _].
  split; [|split; [|split]].
  - destruct (session_deadline_pending _ _ _ Hs) as [_ [id Hin]].
    exists id. now repeat split.
  - intros w Hrtc.
    destruct (session_rtc _ _ _ _ Hs Hrtc)
      as [Hs' | ((Hoff & Hts & _) & _ & Hnow & Hel)].
    + pose proof (session_elapsed _ _ _ Hs') as Hel.
      pose proof Hs' as (h & a & b & e & ds & de & Hon & _).
      split; [intros _; now apply session_deadline_pending|].
      split; [congruence|]. split; [exact Hel|].
      now apply display_within_limit.
    + split; [congruence|]. split; [now split|]. split; [exact Hel|].
      now apply display_within_limit.
  - reflexivity.
  - now apply deadline_session_end.
Qed.

Lemma deadline_ends_session_witness :
  let w1 := press (initial (quiet_then_loud false) 0) in
  isRecording w1 = true
  /\ exists n,
       isRecording (run n w1) = false /\ recording (run n w1) = None
       /\ timers (run n w1) = []
       /\ now (run n w1) = (now (initial (quiet_then_loud false) 0) + 60000)%Z
       /\ rtc fires w1 (run n w1).
Proof.
  cbv zeta. split; [reflexivity|].
  assert (Hidle : idle (initial (quiet_then_loud false) 0)) by (repeat split).
  assert (Hstart : startRecording (recording (initial (quiet_then_loud false) 0))
                     (initial (quiet_then_loud false) 0)
                   = (Normal tt, press (initial (quiet_then_loud false) 0)))
    by (vm_compute; reflexivity).
  assert (Hon : isRecording (press (initial (quiet_then_loud false) 0)) = true)
    by reflexivity.
  destruct (deadline_ends_session script scripted
              (initial (quiet_then_loud false) 0)
              (press (initial (quiet_then_loud false) 0)) Hidle Hstart Hon)
    as (_ & _ & _ & n & Hreached).
  exists n. exact Hreached.
Defined.

(** ** What the functions captured at their render *)

Section ClosureFacts.

Context {B : Type} `{AudioBackend B}.

Implicit Types (w : world B) (captured c : option handle) (h : handle).

Lemma unload_calls_app w (cs : list backend_call) (w' : world B) :
  calls w' = calls w ++ cs ->
  unload_calls w' = unload_calls w ++ List.filter is_unload cs.
Proof. intros Hc. unfold unload_calls. now rewrite Hc, List.filter_app. Qed.

Lemma stopRecording_unload_calls captured w :
  unload_calls (snd (stopRecording captured w))
  = unload_calls w ++ match captured with
                      | Some h => [CallStopAndUnload h]
                      | None => []
                      end.
Proof.
  rewrite (unload_calls_app w _ _ (stopRecording_calls captured w)).
  now destruct captured.
Qed.

(** A timer that fires asks the backend to release a recording only when it
    is a deadline that captured one. *)
Lemma fire_unload_calls (t : timer) w :
  unload_calls (fire t w)
  = unload_calls w ++ match timer_callback t with
                      | Deadline (Some h) => [CallStopAndUnload h]
                      | _ => []
                      end.
Proof.
  unfold fire.
  set (w2 := set_timers _ _ _).
  assert (Hsame : unload_calls w2 = unload_calls w) by reflexivity.
  rewrite <- Hsame. clear Hsame. clearbody w2.
  destruct (timer_callback t) as [h|c|startTime].
  - rewrite app_nil_r.
    destruct w2 as [rec pit dat isrec el iref tref nw ts nid con aud cls].
    unfold run_callback, bind, call, unload_calls. cbn [audio].
    destruct (getStatusAsync h aud) as [[[[] met]|err] b];
      unfold onRecordingStatusUpdate; cbn -[List.filter];
      try destruct met; cbn -[List.filter];
      rewrite List.filter_app, app_nil_r; reflexivity.
  - cbn [run_callback]. rewrite stopRecording_unload_calls.
    destruct c; reflexivity.
  - rewrite app_nil_r. reflexivity.
Qed.

(** In a session whose deadline captured no recording, no timer that fires
    releases anything. *)
Lemma session_fires_unload (t0 : Z) w w' :
  session t0 None w -> fires w w' -> unload_calls w' = unload_calls w.
Proof.
  intros (h & a & b & e & ds & de & _ & _ & _ & Hts & _) Hfires.
  destruct Hfires as [t w [Hin _]]. rewrite fire_unload_calls.
  rewrite Hts in Hin.
  destruct Hin as [<-|[<-|[<-|[]]]]; cbn; now rewrite app_nil_r.
Qed.

Lemma session_rtc_unload (t0 : Z) w w' :
  session t0 None w -> rtc fires w w' -> unload_calls w' = unload_calls w.
Proof.
  intros Hs Hrtc. induction Hrtc as [w|w w1 w2 Hstep Hrtc IH]; [reflexivity|].
  pose proof (session_fires_unload t0 w w1 Hs Hstep) as Hcalls.
  destruct (session_fires t0 None w w1 Hs Hstep)
    as [[Hs1 _] | (Hidle & Hrec & Hnow & Hel)].
  - now rewrite IH.
  - assert (Hend : ended t0 w1) by (now apply (session_ends t0 None w)).
    now rewrite (ended_rtc t0 w1 w2 Hend Hrtc).
Qed.

End ClosureFacts.

(** The function that a press of the stop button runs belongs to the render
    on screen; called a second time before the screen is rendered again, it
    sees the same [recording] and asks the backend to unload it again. *)
Remark stopRecording_same_function_twice
  (B : Type) (backend : AudioBackend B) (w : world B) (h : handle) :
  unload_calls (snd (stopRecording (Some h) (snd (stopRecording (Some h) w))))
  = unload_calls w ++ [CallStopAndUnload h; CallStopAndUnload h].
Proof.
  rewrite !stopRecording_unload_calls, <- app_assoc. reflexivity.
Qed.

(** X1. The deadline runs the [stopRecording] of the render in which the start
    button was pressed. When that render had no [recording], as on a first
    start or after a stop, the deadline ends the session on screen without a
    call to [stopAndUnloadAsync]: the recording that [startAsync] started is
    never released by it. The cleanup of the screen, which runs the function
    of the first render, releases nothing either. *)
Theorem deadline_releases_nothing
  (B : Type) (backend : AudioBackend B) (w0 w1 : world B) :
  idle w0 ->
  recording w0 = None ->
  startRecording (recording w0) w0 = (Normal tt, w1) ->
  isRecording w1 = true ->
  (exists h, recording w1 = Some h)
  /\ (forall w, rtc fires w1 w -> unload_calls w = unload_calls w1)
  /\ (exists n,
        isRecording (run n w1) = false /\ recording (run n w1) = None
        /\ timers (run n w1) = []
        /\ unload_calls (run n w1) = unload_calls w1)
  /\ (forall w, unload_calls (teardown w) = unload_calls w).
Proof.
  intros Hidle Hnone Hstart Hon.
  assert (Hs : session (now w0) None w1).
  { destruct (start_from_idle w0 Hidle) as [Hidle1 | Hs];
      rewrite Hstart in *; cbn [snd] in *.
    - destruct Hidle1 as [Hoff _]. congruence.
    - now rewrite Hnone in Hs. }
  split; [|split; [|split]].
  - destruct (startRecording_run (recording w0) w0)
      as (w1' & Hrun & _ & [Hfail | (h & Hok)]);
      rewrite Hstart in Hrun; injection Hrun as <-.
    + destruct Hfail as (Hsame & _). destruct Hidle as [Hoff _]. congruence.
    + exists h. apply Hok.
  - intros w Hrtc. now apply (session_rtc_unload (now w0)).
  - destruct (deadline_session_end w0 w1 Hidle Hstart Hon)
      as (n & Hoff & Hrec & Hts & _ & Hrtc).
    exists n. repeat (split; [assumption|]).
    now apply (session_rtc_unload (now w0)).
  - intros w. unfold teardown. rewrite stopRecording_unload_calls.
    apply app_nil_r.
Qed.

Lemma deadline_releases_nothing_witness :
  let w1 := press (initial mute 0) in
  recording w1 = Some 0%nat
  /\ exists n,
       isRecording (run n w1) = false /\ recording (run n w1) = None
       /\ timers (run n w1) = [] /\ unload_calls (run n w1) = [].
Proof.
  cbv zeta. split; [reflexivity|].
  assert (Hidle : idle (initial mute 0)) by (repeat split).
  assert (Hstart : startRecording (recording (initial mute 0)) (initial mute 0)
                   = (Normal tt, press (initial mute 0)))
    by (vm_compute; reflexivity).
  destruct (deadline_releases_nothing script scripted (initial mute 0)
              (press (initial mute 0)) Hidle eq_refl Hstart eq_refl)
    as (_ & _ & (n & Hreached) & _).
  exists n. exact Hreached.
Defined.

(** One run of the loop, on a backend that never reports a status: the
    deadline is the 660th timer to fire, the elapsed time tick due at the same
    instant never runs, and the display is left at "00:59". *)
Example display_at_the_deadline :
  let w := run 660 (press (initial mute 0)) in
  isRecording w = false /\ now w = 60000%Z /\ timers w = []
  /\ formatTime (elapsedTime w) = "00:59"%string
  /\ isRecording (run 659 (press (initial mute 0))) = true.
Proof. vm_compute. repeat split. Qed.

(** ** Facts about arrays as objects *)

Section StoreFacts.

Context {A : Type}.

Implicit Types (s : gmap positive (list A)) (arr : positive).

Lemma allocate_fresh (elements : list A) s :
  (allocate elements s).1 ∉ dom s.
Proof. unfold allocate. cbn. apply is_fresh. Qed.

Lemma allocate_contents (elements : list A) s :
  contents (allocate elements s).2 (allocate elements s).1 = elements.
Proof. unfold allocate, contents. cbn. now rewrite lookup_insert_eq. Qed.

(** Allocation leaves every array that exists as it is. *)
Lemma allocate_frame (elements : list A) s arr :
  arr ∈ dom s -> (allocate elements s).2 !! arr = s !! arr.
Proof.
  intros Hin. unfold allocate. cbn. apply lookup_insert_ne.
  intros Heq. rewrite <- Heq in Hin. now apply is_fresh in Hin.
Qed.

Lemma allocate_dom (elements : list A) s arr :
  arr ∈ dom s -> arr ∈ dom (allocate elements s).2.
Proof.
  intros Hin. unfold allocate. cbn. rewrite dom_insert. set_solver.
Qed.

(** The updater on references computes what the updater on sequences
    computes, in an array that did not exist, and changes no array that did. *)
Lemma pitchData_updater_ref_spec (newPitch : A) (currentData : positive) s :
  let r := pitchData_updater_ref newPitch currentData s in
  (r.1 ∉ dom s)
  /\ (forall arr, arr ∈ dom s -> r.2 !! arr = s !! arr)
  /\ contents r.2 r.1 = pitchData_updater newPitch (contents s currentData).
Proof.
  cbv zeta. unfold pitchData_updater_ref, spread_append_ref, pitchData_updater.
  set (updated := Array_spread_append (contents s currentData) newPitch).
  pose proof (allocate_fresh updated s) as Hfresh1.
  pose proof (allocate_contents updated s) as Hcont1.
  destruct (allocate updated s) as [r1 s1] eqn:Halloc1. cbn [fst snd] in *.
  rewrite Hcont1.
  destruct (Z.of_nat (length updated) >? MAX_DATA_POINTS)%Z.
  - unfold slice_ref. rewrite Hcont1.
    set (sliced := Array_slice (- MAX_DATA_POINTS) updated).
    pose proof (allocate_fresh sliced s1) as Hfresh2.
    pose proof (allocate_contents sliced s1) as Hcont2.
    assert (Hs1 : forall arr, arr ∈ dom s -> s1 !! arr = s !! arr).
    { intros arr Hin. pose proof (allocate_frame updated s arr Hin) as Hf.
      now rewrite Halloc1 in Hf. }
    assert (Hd1 : forall arr, arr ∈ dom s -> arr ∈ dom s1).
    { intros arr Hin. pose proof (allocate_dom updated s arr Hin) as Hd.
      now rewrite Halloc1 in Hd. }
    split; [|split].
    + intros Hin. apply Hfresh2. now apply Hd1.
    + intros arr Hin. rewrite allocate_frame by (now apply Hd1). now apply Hs1.
    + exact Hcont2.
  - cbn [fst snd]. split; [exact Hfresh1|]. split; [|exact Hcont1].
    intros arr Hin. pose proof (allocate_frame updated s arr Hin) as Hf.
    now rewrite Halloc1 in Hf.
Qed.

(** The chart is handed the array of the state itself as soon as the window
    holds a sample. *)
Lemma chart_data_shares (zero : A) (pitchData : positive) s :
  contents s pitchData <> [] -> chart_data zero pitchData s = (pitchData, s).
Proof.
  intros Hne. unfold chart_data.
  destruct (contents s pitchData); [congruence|reflexivity].
Qed.

Lemma Array_push_contents arr (x : A) s :
  contents (Array_push arr x s) arr = contents s arr ++ [x].
Proof. unfold Array_push, contents. now rewrite lookup_insert_eq. Qed.

End StoreFacts.

(** C9, as the code has it. An append builds a new array and changes no
    array that existed, so a sequence read earlier is never mutated. The
    chart, though, is handed the very array of the state whenever the window
    is not empty (and a new array holding one zero when it is): what it
    pushes through that reference is in the window. *)
Theorem append_is_fresh_and_chart_shares
  (A : Type) (s : gmap positive (list A)) (pitchData : positive)
  (newPitch zero x : A) :
  let r := pitchData_updater_ref newPitch pitchData s in
  (r.1 ∉ dom s)
  /\ (forall arr, arr ∈ dom s -> contents r.2 arr = contents s arr)
  /\ contents r.2 r.1 = pitchData_updater newPitch (contents s pitchData)
  /\ (contents s pitchData <> [] ->
      (chart_data zero pitchData s).1 = pitchData
      /\ contents (Array_push (chart_data zero pitchData s).1 x s) pitchData
         = contents s pitchData ++ [x])
  /\ (contents s pitchData = [] ->
      ((chart_data zero pitchData s).1 ∉ dom s)
      /\ contents (chart_data zero pitchData s).2 (chart_data zero pitchData s).1
         = [zero]).
Proof.
  cbv zeta.
  destruct (pitchData_updater_ref_spec newPitch pitchData s)
    as (Hfresh & Hframe & Hcont).
  split; [exact Hfresh|]. split; [|split; [exact Hcont|split]].
  - intros arr Hin. unfold contents. now rewrite Hframe.
  - intros Hne. rewrite chart_data_shares by exact Hne. cbn [fst].
    split; [reflexivity|apply Array_push_contents].
  - intros Hnil. unfold chart_data. rewrite Hnil. cbn [length Nat.ltb Nat.leb].
    split; [apply allocate_fresh|apply allocate_contents].
Qed.

Lemma append_is_fresh_and_chart_shares_witness :
  let s : gmap positive (list nat) := {[ 1%positive := [50%nat] ]} in
  (chart_data 0%nat 1%positive s).1 = 1%positive
  /\ contents (Array_push (chart_data 0%nat 1%positive s).1 7%nat s) 1%positive
     = [50%nat; 7%nat].
Proof.
  cbv zeta.
  destruct (append_is_fresh_and_chart_shares nat {[ 1%positive := [50%nat] ]}
              1%positive 60%nat 0%nat 7%nat) as (_ & _ & _ & Hshare & _).
  destruct Hshare as [Href Hpush].
  - unfold contents. rewrite lookup_singleton_eq. discriminate.
  - split; [exact Href|]. rewrite Hpush. unfold contents.
    now rewrite lookup_singleton_eq.
Defined.

(** C9, the input that the claim as stated does not survive: with one
    sample in the window, the array handed to the chart is the array of the
    state, and a push through it by the display layer changes the window. *)
Lemma chart_can_change_the_window :
  let s : gmap positive (list number) := {[ 1%positive := [Finite 50] ]} in
  let pitchData := 1%positive in
  let handed := (chart_data (Finite 0) pitchData s).1 in
  handed = pitchData
  /\ contents s pitchData = [Finite 50]
  /\ contents (Array_push handed NaN s) pitchData = [Finite 50; NaN]
  /\ contents (Array_push handed NaN s) pitchData <> contents s pitchData.
Proof.
  cbv zeta.
  assert (Hwin : contents ({[ 1%positive := [Finite 50] ]}
                            : gmap positive (list number)) 1%positive
                 = [Finite 50]).
  { unfold contents. now rewrite lookup_singleton_eq. }
  assert (Hhanded : (chart_data (Finite 0) 1%positive
                       ({[ 1%positive := [Finite 50] ]}
                        : gmap positive (list number))).1 = 1%positive).
  { rewrite chart_data_shares; [reflexivity|]. rewrite Hwin. discriminate. }
  rewrite Hhanded, Array_push_contents, Hwin.
  repeat split. discriminate.
Qed.

(** * Further properties of the code *)

(** ** The normalizer beyond its range and inside it *)

Section NormalizerShape.

Local Open Scope R_scope.

(** The fraction of the range that a reading covers, after clamping. *)
Lemma range_fraction (db : R) :
  0 <= (Reference.clamp (-60) (-10) db + 60) / 50 <= 1.
Proof.
  pose proof (clamp_range (-60) (-10) db ltac:(lra)). lra.
Qed.

Lemma sqrt_eq_1 (t : R) : 0 <= t -> sqrt t = 1 -> t = 1.
Proof.
  intros Ht Hs. rewrite <- (sqrt_sqrt t Ht), Hs. lra.
Qed.

(** On the unit interval the square root is above the identity. *)
Lemma sqrt_above (t : R) : 0 <= t <= 1 -> t <= sqrt t.
Proof.
  intros Ht. pose proof (sqrt_unit_interval t Ht) as Hs.
  pose proof (sqrt_sqrt t ltac:(lra)) as Hsq. nra.
Qed.

End NormalizerShape.




(** X4. The value drawn for a finite reading is the non-negative number whose
    square is 200 times the distance of the clamped reading from -60 dB, and it
    is never below the linear percentage of the range: the square root curve
    lifts quiet readings. *)
Theorem normalizePitch_square_law (db : R) :
  exists y : R,
    normalizePitch (Finite db) = Finite y
    /\ (0 <= y <= 100)%R
    /\ (y * y = 200 * (Reference.clamp (-60) (-10) db + 60))%R
    /\ ((Reference.clamp (-60) (-10) db + 60) / 50 * 100 <= y)%R.
Proof.
  pose proof (range_fraction db) as Hfr.
  set (t := ((Reference.clamp (-60) (-10) db + 60) / 50)%R) in *.
  exists (sqrt t * 100)%R.
  pose proof (sqrt_unit_interval t Hfr) as Hs.
  pose proof (sqrt_sqrt t ltac:(lra)) as Hsq.
  pose proof (sqrt_above t Hfr) as Hab.
  split; [apply normalizePitch_finite|].
  split; [lra|]. split.
  - replace (sqrt t * 100 * (sqrt t * 100))%R
      with (sqrt t * sqrt t * 10000)%R by ring.
    rewrite Hsq. unfold t. field.
  - nra.
Qed.

(** ** What the elapsed time text tells *)

Section FormatShape.

Local Open Scope Z_scope.

Lemma String_length_append (s1 s2 : string) :
  String.length (s1 ++ s2) = (String.length s1 + String.length s2)%nat.
Proof.
  induction s1 as [|c s1 IH]; simpl; [reflexivity|now rewrite IH].
Qed.

Lemma string_of_uint_colon_free (d : Decimal.uint) :
  colon_free (NilEmpty.string_of_uint d).
Proof. induction d; simpl; auto. Qed.

Lemma Number_toString_colon_free (n : Z) :
  0 <= n -> colon_free (Number_toString n).
Proof.
  intros Hn. unfold Number_toString.
  destruct n as [|p|p]; [simpl; auto| |lia].
  cbn [Z.to_int NilZero.string_of_int]. unfold NilZero.string_of_uint.
  destruct (Pos.to_uint p) eqn:Hd; try (rewrite <- Hd); simpl; auto;
    rewrite ?Hd; simpl; split; auto; apply string_of_uint_colon_free.
Qed.

Lemma pad2_colon_free (n : Z) : 0 <= n -> colon_free (pad2 n).
Proof.
  intros Hn. unfold pad2.
  destruct (n <? 10); [simpl; split; [reflexivity|]|];
    now apply Number_toString_colon_free.
Qed.

Lemma split_colon_app (s1 s2 : string) :
  colon_free s1 -> split_colon (s1 ++ String ":" s2) = (s1, s2).
Proof.
  induction s1 as [|c s1 IH]; simpl.
  - reflexivity.
  - intros [Hc Hfree]. rewrite Hc, IH by exact Hfree. reflexivity.
Qed.

(** Reading a number back from its decimal digits. *)
Lemma parse_Number_toString (n : Z) :
  parse_number (Number_toString n) = Some n.
Proof.
  unfold parse_number, Number_toString.
  rewrite NilZero.isi.
  - cbn [option_map]. now rewrite DecimalZ.of_to.
  - destruct n as [|p|p]; cbn [Z.to_int]; try discriminate.
    intros Heq. injection Heq as Heq. now apply Unsigned.to_uint_nonnil in Heq.
  - destruct n as [|p|p]; cbn [Z.to_int]; try discriminate.
    intros Heq. injection Heq as Heq. now apply Unsigned.to_uint_nonnil in Heq.
Qed.

Lemma parse_pad2 (n : Z) : 0 <= n -> parse_number (pad2 n) = Some n.
Proof.
  intros Hn. unfold pad2. destruct (Z.ltb_spec n 10) as [Hlt|Hge].
  - rewrite <- (Z2Nat.id n) by lia.
    assert (Hk : (Z.to_nat n < 10)%nat) by lia.
    revert Hk. generalize (Z.to_nat n). intros k Hk.
    do 10 (destruct k as [|k]; [reflexivity|]). lia.
  - apply parse_Number_toString.
Qed.

(** A number below one hundred prints as at most two digits. *)
Lemma Number_toString_short (n : Z) :
  0 <= n < 100 -> (String.length (Number_toString n) <= 2)%nat.
Proof.
  intros Hn. rewrite <- (Z2Nat.id n) by lia.
  assert (Hk : (Z.to_nat n < 100)%nat) by lia.
  revert Hk. generalize (Z.to_nat n). intros k Hk.
  do 100 (destruct k as [|k]; [apply Nat.leb_le; reflexivity|]). lia.
Qed.

(** A decimal numeral of two digits denotes a number below one hundred. *)
Lemma two_digits_small (d : Decimal.uint) (p : positive) :
  Decimal.nb_digits d = 2%nat -> Pos.of_uint d = N.pos p -> (p < 100)%positive.
Proof.
  intros Hd Hp.
  destruct d as [|d|d|d|d|d|d|d|d|d|d]; try discriminate Hd;
    destruct d as [|d|d|d|d|d|d|d|d|d|d]; try discriminate Hd;
    destruct d; try discriminate Hd;
    vm_compute in Hp; try discriminate Hp;
    injection Hp as <-; reflexivity.
Qed.

(** A number from one hundred on prints as three digits or more. *)
Lemma Number_toString_three (n : Z) :
  100 <= n -> (3 <= String.length (Number_toString n))%nat.
Proof.
  intros Hn. pose proof (Number_toString_long n ltac:(lia)) as Hlong.
  destruct (Nat.eq_dec (String.length (Number_toString n)) 2%nat) as [Htwo|]; [|lia].
  exfalso. destruct n as [|p|p]; try lia.
  unfold Number_toString in Htwo. cbn [Z.to_int NilZero.string_of_int] in Htwo.
  pose proof (Unsigned.to_uint_nonnil p) as Hnil.
  pose proof (DecimalPos.Unsigned.of_to p) as Hof.
  unfold NilZero.string_of_uint in Htwo.
  assert (Hdigits : Decimal.nb_digits (Pos.to_uint p) = 2%nat).
  { rewrite <- string_of_uint_length.
    destruct (Pos.to_uint p); [congruence|..]; exact Htwo. }
  pose proof (two_digits_small _ p Hdigits Hof). lia.
Qed.

Lemma div_lt_inv (a b q : Z) : 0 < b -> a / b < q -> a < b * q.
Proof.
  intros Hb Hlt. pose proof (Z.div_mod a b ltac:(lia)).
  pose proof (Z.mod_pos_bound a b Hb). nia.
Qed.

Lemma pad2_length (n : Z) :
  0 <= n ->
  (2 <= String.length (pad2 n))%nat
  /\ (n < 100 -> String.length (pad2 n) = 2%nat).
Proof.
  intros Hn. unfold pad2. destruct (Z.ltb_spec n 10) as [Hlt|Hge].
  - cbn [String.length]. rewrite Number_toString_digit by lia. lia.
  - pose proof (Number_toString_long n Hge) as Hlong. split; [exact Hlong|].
    intros Hshort. pose proof (Number_toString_short n ltac:(lia)). lia.
Qed.

End FormatShape.

(** X5. The text printed for an elapsed time that is not negative can be
    read back: cut at its colon, its two sides are the whole minutes and the
    seconds left over, which add up to the whole seconds elapsed. Two elapsed
    times print the same text exactly when they agree on whole seconds: only
    the milliseconds are lost. *)
Theorem formatTime_reads_back (ms1 ms2 : Z) :
  (0 <= ms1)%Z -> (0 <= ms2)%Z ->
  parse_time (formatTime ms1) = Some ((ms1 / 1000 / 60)%Z, ((ms1 / 1000) mod 60)%Z)
  /\ ((ms1 / 1000 / 60) * 60 + (ms1 / 1000) mod 60 = ms1 / 1000)%Z
  /\ (formatTime ms1 = formatTime ms2 <-> (ms1 / 1000 = ms2 / 1000)%Z).
Proof.
  intros H1 H2.
  assert (Hread : forall ms, (0 <= ms)%Z ->
            parse_time (formatTime ms)
            = Some ((ms / 1000 / 60)%Z, ((ms / 1000) mod 60)%Z)).
  { intros ms Hms. rewrite formatTime_pad2 by exact Hms.
    assert (Hs : (0 <= ms / 1000)%Z) by (apply Z.div_pos; lia).
    assert (Hm : (0 <= ms / 1000 / 60)%Z) by (apply Z.div_pos; lia).
    assert (Hr : (0 <= (ms / 1000) mod 60)%Z) by (apply Z.mod_pos_bound; lia).
    unfold parse_time.
    change (":" ++ pad2 ((ms / 1000) mod 60))%string
      with (String ":" (pad2 ((ms / 1000) mod 60))).
    rewrite split_colon_app by (now apply pad2_colon_free).
    now rewrite !parse_pad2 by assumption. }
  assert (Hsum : forall s : Z, (s / 60 * 60 + s mod 60 = s)%Z).
  { intros s. pose proof (Z.div_mod s 60 ltac:(lia)). lia. }
  split; [now apply Hread|]. split; [apply Hsum|]. split.
  - intros Heq. pose proof (Hread ms1 H1) as R1. pose proof (Hread ms2 H2) as R2.
    rewrite Heq, R2 in R1. injection R1 as Hmin Hsec.
    rewrite <- (Hsum (ms1 / 1000)%Z), <- (Hsum (ms2 / 1000)%Z). lia.
  - intros Heq. unfold formatTime. now rewrite Heq.
Qed.

Lemma formatTime_reads_back_witness :
  parse_time (formatTime 125999) = Some (2%Z, 5%Z)
  /\ formatTime 125999 = formatTime 125000.
Proof.
  destruct (formatTime_reads_back 125999 125000) as (Hread & _ & Hsame);
    [lia|lia|].
  split; [exact Hread|]. apply Hsame. reflexivity.
Defined.

(** X6. The text has at least five characters, and exactly five, two digits
    on each side of the colon, as long as fewer than one hundred minutes have
    elapsed; from one hundred minutes on it is longer. *)
Theorem formatTime_width (ms : Z) :
  (0 <= ms)%Z ->
  (5 <= String.length (formatTime ms))%nat
  /\ (String.length (formatTime ms) = 5%nat <-> (ms < 6000000)%Z).
Proof.
  intros Hms. rewrite formatTime_pad2 by exact Hms.
  assert (Hs : (0 <= ms / 1000)%Z) by (apply Z.div_pos; lia).
  assert (Hm : (0 <= ms / 1000 / 60)%Z) by (apply Z.div_pos; lia).
  assert (Hr : (0 <= (ms / 1000) mod 60 < 60)%Z) by (apply Z.mod_pos_bound; lia).
  rewrite !String_length_append. cbn [String.length].
  destruct (pad2_length (ms / 1000 / 60)%Z Hm) as [Hm2 Hm_eq].
  destruct (pad2_length ((ms / 1000) mod 60)%Z ltac:(lia)) as [_ Hr_eq].
  rewrite (Hr_eq ltac:(lia)).
  split; [lia|]. split.
  - intros Hlen.
    destruct (Z.lt_ge_cases (ms / 1000 / 60) 100) as [Hlt|Hge].
    + assert ((ms / 1000 < 60 * 100)%Z) by (apply div_lt_inv; lia).
      assert ((ms < 1000 * 6000)%Z) by (apply div_lt_inv; lia). lia.
    + exfalso. unfold pad2 in Hlen.
      destruct (Z.ltb_spec (ms / 1000 / 60) 10); [lia|].
      pose proof (Number_toString_three (ms / 1000 / 60)%Z Hge). lia.
  - intros Hlt.
    assert ((ms / 1000 / 60 < 100)%Z).
    { apply Z.div_lt_upper_bound; [lia|]. apply Z.div_lt_upper_bound; lia. }
    rewrite (Hm_eq ltac:(lia)). reflexivity.
Qed.

Lemma formatTime_width_witness :
  String.length (formatTime 5999999) = 5%nat
  /\ (5 <= String.length (formatTime 6000000))%nat.
Proof.
  destruct (formatTime_width 5999999 ltac:(lia)) as [_ Hfive].
  destruct (formatTime_width 6000000 ltac:(lia)) as [Hmin _].
  split; [apply Hfive; lia|exact Hmin].
Defined.

(** X7. A negative elapsed time, which the clock going backwards during a
    session would produce, is printed with a minus sign in front; down to one
    second before the start the text is "-1:-1". *)
Theorem formatTime_negative (ms : Z) :
  (ms < 0)%Z ->
  (exists rest, formatTime ms = String "-" rest)
  /\ ((-1000 <= ms)%Z -> formatTime ms = "-1:-1"%string).
Proof.
  intros Hneg. split.
  - unfold formatTime.
    assert (Hmin : (ms / 1000 / 60 < 0)%Z).
    { assert ((ms / 1000 < 0)%Z) by (apply Z.div_lt_upper_bound; lia).
      apply Z.div_lt_upper_bound; lia. }
    destruct (ms / 1000 / 60)%Z as [|p|p] eqn:Hm; try lia.
    unfold Number_toString at 1. cbn [Z.to_int NilZero.string_of_int].
    unfold String_padStart.
    pose proof (Unsigned.to_uint_nonnil p) as Hnil.
    assert (Hlen : (1 <= String.length (NilZero.string_of_uint (Pos.to_uint p)))%nat).
    { unfold NilZero.string_of_uint.
      destruct (Pos.to_uint p); [congruence|..]; cbn; lia. }
    cbn [String.length].
    destruct (Nat.leb_spec 2 (S (String.length
                (NilZero.string_of_uint (Pos.to_uint p))))); [|lia].
    eexists. reflexivity.
  - intros Hlow.
    assert (Hs : (ms / 1000 = -1)%Z).
    { symmetry. apply (Z.div_unique ms 1000 (-1) (ms + 1000)); lia. }
    unfold formatTime. rewrite Hs. reflexivity.
Qed.

Lemma formatTime_negative_witness :
  formatTime (-61000) = "-2:-1"%string /\ formatTime (-1) = "-1:-1"%string.
Proof.
  split; [reflexivity|].
  apply (proj2 (formatTime_negative (-1) ltac:(lia))). lia.
Defined.

(** ** What a start leaves behind *)

Section StartFacts.

Context {B : Type} `{AudioBackend B}.

Implicit Types (w : world B) (captured : option handle).

Local Open Scope Z_scope.

(** Every way [startRecording] can go. *)
Lemma startRecording_cases captured w :
  exists w',
    startRecording captured w = (Normal tt, w')
    /\ now w' = now w /\ pitch w' = pitch w
    /\ ((exists err,
           console w' = console w ++ [start_failure_line err]
           /\ isRecording w' = isRecording w /\ timers w' = timers w
           /\ next_timer_id w' = next_timer_id w
           /\ intervalRef w' = intervalRef w /\ timerRef w' = timerRef w
           /\ elapsedTime w' = elapsedTime w /\ pitchData w' = pitchData w
           /\ (recording w' = recording w
               \/ exists h, recording w' = Some h
                            /\ exists before, calls w' = before ++ [CallStart h]))
        \/ (exists h,
              let a := next_timer_id w in
              let b := Pos.succ a in
              let e := Pos.succ b in
              console w' = console w
              /\ isRecording w' = true /\ recording w' = Some h
              /\ pitchData w' = [] /\ elapsedTime w' = 0
              /\ intervalRef w' = Some a
              /\ timerRef w' = TRobject (Some b) (Some e)
              /\ next_timer_id w' = Pos.succ e
              /\ timers w'
                 = timers w
                   ++ [ sample_timer a (now w + REFRESH_INTERVAL) h;
                        deadline_timer b (now w) captured;
                        elapsed_timer e (now w + 1000) (now w) ])).
Proof.
  destruct w as [rec pit dat isrec el iref tref nw ts nid con aud cls].
  unfold startRecording, try_catch, bind, call, construct_Recording.
  cbn [audio].
  destruct (requestPermissionsAsync aud) as [[[]|err] b1].
  2:{ eexists. split; [reflexivity|]. do 2 (split; [reflexivity|]).
      left. exists err. cbn. repeat split. now left. }
  cbn [audio set_audio].
  destruct (setAudioModeAsync b1) as [[[]|err] b2].
  2:{ eexists. split; [reflexivity|]. do 2 (split; [reflexivity|]).
      left. exists err. cbn. repeat split. now left. }
  cbn [audio set_audio].
  destruct (new_Recording b2) as [h b3].
  cbn [audio set_audio].
  destruct (prepareToRecordAsync h b3) as [[[]|err] b4].
  2:{ eexists. split; [reflexivity|]. do 2 (split; [reflexivity|]).
      left. exists err. cbn. repeat split. now left. }
  cbn.
  destruct (startAsync h b4) as [[[]|err] b5].
  2:{ eexists. split; [reflexivity|]. do 2 (split; [reflexivity|]).
      left. exists err. cbn. repeat split. right. exists h.
      split; [reflexivity|]. eexists. reflexivity. }
  cbn. eexists. split; [reflexivity|]. do 2 (split; [reflexivity|]).
  right. exists h. cbn. repeat split. rewrite <- !app_assoc. reflexivity.
Qed.

Lemma snoc_neq {A : Type} (l : list A) (x : A) : l ++ [x] <> l.
Proof.
  intros Heq. apply (f_equal (@length A)) in Heq.
  rewrite length_app in Heq. simpl in Heq. lia.
Qed.

End StartFacts.


(** ** What the screen keeps, whatever is pressed and whatever fires *)

Section ConsistencyFacts.

Context {B : Type} `{AudioBackend B}.

Implicit Types (w : world B) (captured c : option handle) (h : handle).

Local Open Scope Z_scope.

(** Below capacity an append keeps every sample; at capacity it sheds the
    oldest one. *)
Lemma pitchData_updater_below {A : Type} (x : A) (l : list A) :
  (length l < 600)%nat -> pitchData_updater x l = l ++ [x].
Proof.
  intros Hl. rewrite pitchData_updater_snoc.
  replace (length l + 1 - 600)%nat with 0%nat by lia. reflexivity.
Qed.

Lemma pitchData_updater_full {A : Type} (x : A) (l : list A) :
  length l = 600%nat -> pitchData_updater x l = tl l ++ [x].
Proof.
  intros Hl. rewrite pitchData_updater_snoc, Hl.
  change (600 + 1 - 600)%nat with 1%nat. now destruct l.
Qed.

(** What the sampling tick does to the window and to the rest of the world. *)
Lemma run_sample_window h w :
  let w' := snd (run_callback (SampleTick h) w) in
  (pitchData w' = pitchData w
   \/ exists m, pitchData w' = pitchData_updater (normalizePitch m) (pitchData w))
  /\ console w' = console w /\ next_timer_id w' = next_timer_id w.
Proof.
  destruct w as [rec pit dat isrec el iref tref nw ts nid con aud cls].
  unfold run_callback, bind, call. cbn [audio].
  destruct (getStatusAsync h aud) as [[[[] met]|err] b];
    unfold onRecordingStatusUpdate; cbn; try (now repeat split; left).
  destruct met; cbn; try (now repeat split; left).
  repeat split. right. now exists n.
Qed.

Lemma fire_unfold (t : timer) w :
  fire t w
  = snd (run_callback (timer_callback t)
           (set_timers (rearm t (Z.max (now w) (due t)) (timers w))
              (next_timer_id w) (set_now (Z.max (now w) (due t)) w))).
Proof. reflexivity. Qed.

(** One timer fires in a live session. *)
Lemma live_fires (t0 : Z) c w w' :
  live t0 c w -> ids_below w -> fires w w' ->
  ids_below w'
  /\ ((live t0 c w'
       /\ (pitchData w' = pitchData w \/ exists x, pitchData w' = pitchData w ++ [x]))
      \/ (idle w' /\ pitchData w' = pitchData w
          /\ elapsedTime w' = elapsedTime w)).
Proof.
  intros [Hs (h & a & b & e & ds & de & Hts & Hrec & Hlen & Hds)] Hids Hfires.
  pose proof (session_fires t0 c w w' Hs Hfires) as Hstep.
  pose proof Hs as (h' & a' & b' & e' & ds' & de' & Hisrec & Hi & Ht & Hts'
                    & (Hab & Hae & Hbe) & Hnow & Hds' & Hde' & Hel).
  rewrite Hts in Hts'. injection Hts' as <- <- <- <- <- <-.
  assert (Hbelow : (a < next_timer_id w /\ b < next_timer_id w
                    /\ e < next_timer_id w)%positive).
  { unfold ids_below in Hids. rewrite Hts in Hids.
    inversion Hids as [|? ? Ha Hids1]; subst.
    inversion Hids1 as [|? ? Hb Hids2]; subst.
    inversion Hids2 as [|? ? He _]; subst. now repeat split. }
  destruct Hfires as [t w [Hin Hmin]].
  rewrite Hts in Hin, Hmin.
  assert (Hmin_s := Hmin _ (or_introl eq_refl)).
  assert (Hmin_d := Hmin _ (or_intror (or_introl eq_refl))).
  assert (Hmin_e := Hmin _ (or_intror (or_intror (or_introl eq_refl)))).
  clear Hmin. cbn [due sample_timer deadline_timer elapsed_timer] in *.
  unfold RECORDING_TIME_LIMIT, REFRESH_INTERVAL in *.
  rewrite fire_unfold in *.
  destruct Hin as [<-|[<-|[<-|[]]]];
    cbn [due timer_callback sample_timer deadline_timer elapsed_timer] in *;
    unfold RECORDING_TIME_LIMIT, REFRESH_INTERVAL in *.
  - (* the sampling tick *)
    rewrite Hts, rearm_sample in * by assumption.
    rewrite Z.max_r in * by lia.
    match goal with |- context [run_callback _ ?w2] =>
      destruct (run_sample_frame h w2) as (F1 & F2 & F3 & F4 & F5 & F6 & F7);
      destruct (run_sample_window h w2) as (G1 & G2 & G3);
      set (w3 := snd (run_callback (SampleTick h) w2)) in *
    end.
    cbn [timers now recording pitchData next_timer_id isRecording
         set_timers set_now] in F1, F4, F6, F7, G1, G3.
    assert (Hroom : (length (pitchData w) < 600)%nat) by lia.
    assert (Hgrow : pitchData w3 = pitchData w
                    \/ exists x, pitchData w3 = pitchData w ++ [x]).
    { destruct G1 as [G1 | [m G1]]; [now left|right].
      exists (normalizePitch m). rewrite G1. now apply pitchData_updater_below. }
    split.
    { unfold ids_below. rewrite F1, G3.
      repeat constructor; cbn; tauto. }
    left. split; [|exact Hgrow].
    destruct Hstep as [[Hs3 _] | [(Hoff & _) _]]; [|congruence].
    split; [exact Hs3|].
    exists h, a, b, e, (ds + 100), de.
    split; [exact F1|]. split; [now rewrite F7|].
    unfold REFRESH_INTERVAL. rewrite F6. split; [|lia].
    destruct Hgrow as [-> | [x ->]]; [lia|].
    rewrite length_app. cbn [length]. lia.
  - (* the deadline *)
    rewrite Hts, rearm_deadline in * by assumption.
    unfold RECORDING_TIME_LIMIT in *. rewrite Z.max_r in * by lia.
    cbn [run_callback] in *.
    match goal with |- context [stopRecording _ ?w2] =>
      destruct (stopRecording_run c w2)
        as (w3 & Hrun & Htimers & _ & _ & _ & _ & _ & Hel3 & Hnext & Hdata)
    end.
    rewrite Hrun in *. cbn [snd] in *. cbn in Hel3, Hdata.
    destruct Hstep as [[Hs3 _] | (Hidle & _)].
    { destruct Hs3 as (? & ? & ? & ? & ? & ? & Hon & _).
      destruct (stopRecording_run c
                  (set_timers [sample_timer a ds h; elapsed_timer e de t0]
                     (next_timer_id w) (set_now (t0 + 60000) w)))
        as (w4 & Hrun4 & _ & _ & _ & _ & Hoff4 & _).
      rewrite Hrun in Hrun4. injection Hrun4 as <-. congruence. }
    split.
    { unfold ids_below. destruct Hidle as (_ & Hnil & _). rewrite Hnil.
      constructor. }
    right. split; [exact Hidle|]. split; assumption.
  - (* the elapsed time tick *)
    rewrite Hts, rearm_elapsed in * by assumption.
    rewrite Z.max_r in * by lia.
    unfold run_callback, bind, Date_now, gets, setElapsedTime, modify in *.
    cbn [snd fst] in *.
    split.
    { unfold ids_below. cbn. repeat constructor; cbn; tauto. }
    left. split; [|now left].
    destruct Hstep as [[Hs3 _] | [(Hoff & _) _]]; [|cbn in Hoff; congruence].
    split; [exact Hs3|].
    exists h, a, b, e, ds, (de + 1000). cbn.
    unfold REFRESH_INTERVAL. repeat split; try assumption; lia.
Qed.

Lemma live_window (t0 : Z) c w :
  live t0 c w ->
  (length (pitchData w) <= 600)%nat
  /\ Z.of_nat (length (pitchData w)) * REFRESH_INTERVAL <= now w - t0.
Proof.
  intros [Hs (h & a & b & e & ds & de & Hts & _ & Hlen & Hds)].
  destruct Hs as (h' & a' & b' & e' & ds' & de' & _ & _ & _ & Hts' & _ & _
                  & Hds' & _).
  rewrite Hts in Hts'. injection Hts' as <- <- <- <- <- <-.
  unfold RECORDING_TIME_LIMIT, REFRESH_INTERVAL in *. lia.
Qed.

(** A press of the stop button in a live session. *)
Lemma live_stop (t0 : Z) c w captured :
  live t0 c w ->
  let w' := snd (stopRecording captured w) in
  idle w' /\ recording w' = None /\ pitchData w' = pitchData w
  /\ elapsedTime w' = elapsedTime w /\ now w' = now w.
Proof.
  intros [Hs _]. cbv zeta.
  destruct Hs as (h & a & b & e & ds & de & _ & Hi & Ht & Hts & _).
  destruct (stop_clears captured w a b e (sample_timer a ds h)
              (deadline_timer b t0 c) (elapsed_timer e de t0))
    as (Hidle & Hrec & Hnow & Hel);
    [assumption|assumption|reflexivity|reflexivity|left; now split|].
  destruct (stopRecording_run captured w)
    as (w' & Hrun & _ & _ & _ & _ & _ & _ & _ & _ & Hdata).
  rewrite Hrun in *. cbn [snd] in *. now repeat (split; [assumption|]).
Qed.

(** A press of the start button in an idle world. *)
Lemma idle_start w :
  idle w -> ids_below w ->
  let w' := snd (startRecording (recording w) w) in
  ids_below w'
  /\ ((idle w' /\ pitchData w' = pitchData w /\ elapsedTime w' = elapsedTime w)
      \/ (live (now w) (recording w) w' /\ pitchData w' = []
          /\ elapsedTime w' = 0)).
Proof.
  intros Hidle Hids. cbv zeta.
  pose proof (start_from_idle w Hidle) as Hshape. cbv zeta in Hshape.
  destruct (startRecording_cases (recording w) w)
    as (w' & Hrun & Hnow & _ & [(err & Hfail) | (h & Hok)]);
    rewrite Hrun in *; cbn [snd] in *.
  - destruct Hfail as (_ & Hon & Hts & Hnext & Hi & Ht & Hel & Hdata & _).
    split.
    + unfold ids_below. now rewrite Hts, Hnext.
    + left. split; [|now split].
      destruct Hidle as (H1 & H2 & H3 & H4). unfold idle.
      rewrite Hon, Hts, Hi, Ht. now repeat split.
  - cbv zeta in Hok.
    destruct Hok as (_ & Hon & Hrec & Hdata & Hel & Hi & Ht & Hnext & Hts).
    destruct Hidle as (Hoff & Hnil & _). rewrite Hnil in Hts. cbn [app] in Hts.
    split.
    + unfold ids_below. rewrite Hts, Hnext.
      repeat constructor; cbn; lia.
    + right. split; [|now split].
      destruct Hshape as [(Hoff' & _) | Hs]; [congruence|].
      split; [exact Hs|].
      exists h, (next_timer_id w), (Pos.succ (next_timer_id w)),
        (Pos.succ (Pos.succ (next_timer_id w))),
        (now w + REFRESH_INTERVAL), (now w + 1000).
      rewrite Hdata, Hnow. cbn [length]. unfold REFRESH_INTERVAL.
      repeat split; try assumption; lia.
Qed.

(** Whatever is pressed and whatever fires, the screen stays consistent. *)
Lemma screen_consistent w : reachable w -> consistent w.
Proof.
  intros (b0 & t & Hrtc). revert w Hrtc. apply rtc_ind_r.
  - unfold consistent, ids_below, RECORDING_TIME_LIMIT. cbn.
    split; [lia|]. split; [lia|]. split; [constructor|].
    left. now repeat split.
  - intros w1 w2 _ Hstep (Hel & Hlen & Hids & Hshape).
    destruct Hstep as [w1 w2 Hfires | w1 at_time Hnow Hdue].
    + destruct Hshape as [Hidle | (t0 & c & Hlive)];
        [now apply idle_quiet in Hfires|].
      destruct (live_fires t0 c w1 w2 Hlive Hids Hfires)
        as (Hids2 & [(Hlive2 & _) | (Hidle2 & Hdata & Hel2)]).
      * split; [|split; [|split; [exact Hids2|]]].
        -- destruct Hlive2 as [Hs2 _]. now apply (session_elapsed t0 c).
        -- now apply (live_window t0 c).
        -- right. now exists t0, c.
      * split; [rewrite Hel2; exact Hel|].
        split; [rewrite Hdata; exact Hlen|]. split; [exact Hids2|].
        now left.
    + unfold press.
      destruct Hshape as [Hidle | (t0 & c & Hlive)].
      * assert (Hidle' : idle (set_now at_time w1)) by exact Hidle.
        destruct Hidle' as (Hoff & _). rewrite Hoff.
        destruct (idle_start (set_now at_time w1) Hidle Hids)
          as (Hids2 & [(Hidle2 & Hdata & Hel2) | (Hlive2 & Hdata & Hel2)]).
        -- split; [rewrite Hel2; exact Hel|].
           split; [rewrite Hdata; exact Hlen|]. split; [exact Hids2|].
           now left.
        -- split; [rewrite Hel2; unfold RECORDING_TIME_LIMIT; lia|].
           split; [rewrite Hdata; cbn; lia|]. split; [exact Hids2|].
           right. eexists _, _. exact Hlive2.
      * assert (Hon : isRecording (set_now at_time w1) = true).
        { destruct Hlive as [(? & ? & ? & ? & ? & ? & Hon & _) _]. exact Hon. }
        rewrite Hon.
        assert (Hlive' : exists t1 c1, session t1 c1 w1) by (exists t0, c; apply Hlive).
        destruct Hlive as [(h & a & b & e & ds & de & _ & Hi & Ht & Hts & _) _].
        destruct (stop_clears (recording (set_now at_time w1))
                    (set_now at_time w1) a b e (sample_timer a ds h)
                    (deadline_timer b t0 c) (elapsed_timer e de t0))
          as (Hidle2 & _ & _ & Hel2);
          [assumption|assumption|reflexivity|reflexivity|left; now split|].
        destruct (stopRecording_run (recording (set_now at_time w1))
                    (set_now at_time w1))
          as (w3 & Hrun & _ & _ & _ & _ & _ & _ & _ & _ & Hdata).
        rewrite Hrun in *. cbn [snd] in *.
        cbn [elapsedTime pitchData set_now] in Hel2, Hdata.
        split; [rewrite Hel2; exact Hel|].
        split; [rewrite Hdata; exact Hlen|]. split; [|now left].
        unfold ids_below. destruct Hidle2 as (_ & Hnil & _). rewrite Hnil.
        constructor.
Qed.

End ConsistencyFacts.

Section ScreenExamples.

(** The screen after one press of the button on a backend that never has a
    status: a session is running. *)
Lemma pressed_once_reachable :
  reachable (press (set_now 0 (initial mute 0))).
Proof.
  exists mute, 0%Z. apply rtc_once. apply step_press.
  - cbn. lia.
  - intros t [].
Qed.

Lemma remove_timer_others (i : positive) (ts : list timer) :
  Forall (fun t => timer_id t <> i) ts -> remove_timer i ts = ts.
Proof.
  induction 1 as [|t ts Ht _ IH]; [reflexivity|].
  rewrite remove_timer_miss by exact Ht. now rewrite IH.
Qed.

Lemma remove_timer_nil (i : positive) : remove_timer i [] = [].
Proof. reflexivity. Qed.

Lemma remove_timer_app (i : positive) (ts1 ts2 : list timer) :
  remove_timer i (ts1 ++ ts2) = remove_timer i ts1 ++ remove_timer i ts2.
Proof. unfold remove_timer. apply List.filter_app. Qed.

End ScreenExamples.









(** X13. [startRecording] does not look whether a session is running. Run
    while the screen is recording, a start that succeeds overwrites both
    refs, and the [stopRecording] that follows cancels the three timers of
    the second session only: the three timers of the first session are still
    queued, with [isRecording] false and both refs empty, and no later stop
    can reach them. *)
Theorem second_start_orphans_timers
  (B : Type) (backend : AudioBackend B) (w : world B)
  (captured1 captured2 : option handle) :
  reachable w -> isRecording w = true ->
  timers (snd (startRecording captured1 w)) <> timers w ->
  let w2 := snd (stopRecording captured2 (snd (startRecording captured1 w))) in
  timers w2 = timers w /\ length (timers w2) = 3%nat
  /\ isRecording w2 = false /\ intervalRef w2 = None /\ timerRef w2 = TRnull
  /\ forall captured3, timers (snd (stopRecording captured3 w2)) = timers w.
Proof.
  intros Hreach Hon Hnew. cbv zeta.
  destruct (screen_consistent w Hreach)
    as (_ & _ & Hids & [(Hoff & _) | (t0 & c & Hlive)]); [congruence|].
  destruct Hlive as [_ (h0 & a0 & b0 & e0 & ds0 & de0 & Hts0 & _)].
  destruct (startRecording_cases captured1 w)
    as (w1 & Hrun1 & _ & _ & [(err & Hfail) | (h & Hok)]);
    rewrite Hrun1 in *; cbn [snd] in *.
  { destruct Hfail as (_ & _ & Hsame & _). contradiction. }
  cbv zeta in Hok.
  destruct Hok as (_ & _ & _ & _ & _ & Hi & Ht & _ & Hts1).
  destruct (stopRecording_run captured2 w1)
    as (w2 & Hrun2 & Hts2 & Hi2 & Ht2 & _ & Hoff2 & _).
  rewrite Hrun2. cbn [snd].
  rewrite Hi, Ht, Hts1 in Hts2. cbn [field_interval field_timeout cleared] in Hts2.
  assert (Hkeep : forall i, (next_timer_id w <= i)%positive ->
            remove_timer i (timers w) = timers w).
  { intros i Hi'. apply remove_timer_others.
    unfold ids_below in Hids. eapply Forall_impl; [exact Hids|].
    cbn. intros t Hlt. lia. }
  assert (Hts2' : timers w2 = timers w).
  { rewrite Hts2, !remove_timer_app.
    rewrite (Hkeep (next_timer_id w)) by lia.
    rewrite (Hkeep (Pos.succ (next_timer_id w))) by lia.
    rewrite (Hkeep (Pos.succ (Pos.succ (next_timer_id w)))) by lia.
    repeat first [ rewrite remove_timer_hit by reflexivity
                 | rewrite remove_timer_miss by (cbn; lia)
                 | rewrite remove_timer_nil ].
    apply app_nil_r. }
  split; [exact Hts2'|]. split; [now rewrite Hts2', Hts0|].
  repeat (split; [assumption|]).
  intros captured3.
  destruct (stopRecording_run captured3 w2) as (w3 & Hrun3 & Hts3 & _).
  rewrite Hrun3. cbn [snd]. rewrite Hts3, Hi2, Ht2. exact Hts2'.
Qed.

Lemma second_start_orphans_timers_witness :
  let w := press (set_now 0 (initial mute 0)) in
  let w2 := snd (stopRecording None (snd (startRecording None w))) in
  timers w2 = timers w /\ isRecording w2 = false.
Proof.
  cbv zeta.
  destruct (second_start_orphans_timers script scripted
              (press (set_now 0 (initial mute 0))) None None
              pressed_once_reachable eq_refl)
    as (Hts & _ & Hoff & _).
  - vm_compute. discriminate.
  - split; [exact Hts|exact Hoff].
Defined.

(** ** Edges of the pipeline *)

(** A start that the backend refuses, then one that it accepts: the first
    leaves the prepared object 0 in [recording] with nothing scheduled and
    one line on the console; the deadline of the second session, which polls
    object 1, carries object 0. *)
Example refused_then_started :
  let w1 := press (initial refuses_once 0) in
  let w2 := press w1 in
  isRecording w1 = false /\ recording w1 = Some 0%nat /\ timers w1 = []
  /\ console w1 = [start_failure_line "busy"]
  /\ isRecording w2 = true /\ recording w2 = Some 1%nat
  /\ map timer_callback (timers w2)
     = [SampleTick 1; Deadline (Some 0%nat); ElapsedTick 0].
Proof. vm_compute. repeat split. Qed.

(** X14. When the status query of a sampling tick fails, the rejection reaches
    nobody: nothing is appended and nothing is written to the console, the
    state of the session is untouched, and the sampling timer is queued again
    for its next period. *)
Theorem failing_status_query_skips_sample
  (B : Type) (backend : AudioBackend B) (w : world B) (t : timer)
  (h : handle) (err : string) (b : B) :
  timer_callback t = SampleTick h ->
  getStatusAsync h (audio w) = (Throw err, b) ->
  let w' := fire t w in
  pitchData w' = pitchData w /\ pitch w' = pitch w
  /\ console w' = console w
  /\ isRecording w' = isRecording w /\ recording w' = recording w
  /\ elapsedTime w' = elapsedTime w
  /\ intervalRef w' = intervalRef w /\ timerRef w' = timerRef w
  /\ timers w' = rearm t (Z.max (now w) (due t)) (timers w)
  /\ calls w' = calls w ++ [CallGetStatus h] /\ audio w' = b.
Proof.
  intros Hcb Hfail. cbv zeta. unfold fire. rewrite Hcb.
  destruct w as [rec pit dat isrec el iref tref nw ts nid con aud cls].
  cbn [audio] in Hfail.
  unfold run_callback, bind, call. cbn [audio set_timers set_now now timers
    next_timer_id recording pitch pitchData isRecording elapsedTime intervalRef
    timerRef console calls].
  rewrite Hfail. cbn. repeat split.
Qed.

Lemma failing_status_query_skips_sample_witness :
  let w := press (initial mute 0) in
  let w' := fire (sample_timer 1 100 0) w in
  pitchData w' = pitchData w /\ console w' = console w
  /\ timers w' = rearm (sample_timer 1 100 0) (Z.max (now w) 100) (timers w).
Proof.
  cbv zeta.
  assert (Hquery : getStatusAsync 0%nat (audio (press (initial mute 0)))
                   = (Throw "no status"%string, audio (press (initial mute 0))))
    by (vm_compute; reflexivity).
  destruct (failing_status_query_skips_sample script scripted
              (press (initial mute 0)) (sample_timer 1 100 0) 0%nat
              "no status" (audio (press (initial mute 0))) eq_refl Hquery)
    as (Hdata & _ & Hcon & _ & _ & _ & _ & _ & Hts & _).
  split; [exact Hdata|]. split; [exact Hcon|exact Hts].
Defined.

(** X15. One append to any window: below 600 samples it keeps them all, at
    exactly 600 it sheds the oldest one, and a window that is longer than 600
    is cut back to 600 at once; the new sample is always the last. *)
Theorem append_at_the_edges (A : Type) (x : A) (l : list A) :
  ((length l < 600)%nat -> pitchData_updater x l = l ++ [x])
  /\ (length l = 600%nat -> pitchData_updater x l = tl l ++ [x])
  /\ ((600 <= length l)%nat -> length (pitchData_updater x l) = 600%nat)
  /\ exists front, pitchData_updater x l = front ++ [x].
Proof.
  split; [apply pitchData_updater_below|].
  split; [apply pitchData_updater_full|]. split.
  - intros Hl. rewrite pitchData_updater_snoc, length_app, length_skipn.
    cbn [length]. lia.
  - eexists. apply pitchData_updater_snoc.
Qed.

Lemma append_at_the_edges_witness :
  pitchData_updater 7%nat [1; 2; 3]%nat = [1; 2; 3; 7]%nat
  /\ pitchData_updater 7%nat (seq 0 600) = seq 1 599 ++ [7%nat]
  /\ length (pitchData_updater 7%nat (seq 0 700)) = 600%nat.
Proof.
  destruct (append_at_the_edges nat 7%nat [1; 2; 3]%nat) as (Hbelow & _).
  destruct (append_at_the_edges nat 7%nat (seq 0 600)) as (_ & Hfull & _).
  destruct (append_at_the_edges nat 7%nat (seq 0 700)) as (_ & _ & Hover & _).
  split; [apply Hbelow; cbn; lia|].
  split; [rewrite Hfull by reflexivity; reflexivity|].
  apply Hover. rewrite length_seq. lia.
Defined.

(** X16. The chart is never handed an empty dataset: it gets the samples of
    the window when there are some and the single value zero when there are
    none, and building that dataset changes no array that existed. *)
Theorem chart_dataset_never_empty
  (A : Type) (s : gmap positive (list A)) (pitchData : positive) (zero : A) :
  let r := chart_data zero pitchData s in
  contents r.2 r.1 <> []
  /\ contents r.2 r.1
     = (if (0 <? length (contents s pitchData))%nat
        then contents s pitchData else [zero])
  /\ forall arr, arr ∈ dom s -> contents r.2 arr = contents s arr.
Proof.
  cbv zeta. unfold chart_data.
  destruct (contents s pitchData) as [|v l] eqn:Hc; cbn [length Nat.ltb Nat.leb].
  - rewrite allocate_contents. split; [discriminate|]. split; [reflexivity|].
    intros arr Hin. unfold contents. now rewrite allocate_frame.
  - cbn [fst snd]. rewrite Hc. split; [discriminate|]. now split.
Qed.

(** ** The samples on the graph *)

Section RangeFacts.

Context {B : Type} `{AudioBackend B}.

Implicit Types (w : world B) (h : handle).

Lemma updater_in_range (m : number) (l : list number) :
  m <> NaN -> Forall in_display_range l ->
  Forall in_display_range (pitchData_updater (normalizePitch m) l).
Proof.
  intros Hm Hl. rewrite pitchData_updater_snoc.
  apply Forall_app. split; [now apply Forall_skipn|].
  constructor; [|constructor]. now apply normalizePitch_range.
Qed.

Lemma run_sample_range h w :
  never_reports_NaN ->
  Forall in_display_range (pitchData w) ->
  Forall in_display_range (pitchData (snd (run_callback (SampleTick h) w))).
Proof.
  intros Hhonest Hwin.
  destruct w as [rec pit dat isrec el iref tref nw ts nid con aud cls].
  unfold run_callback, bind, call. cbn [audio].
  destruct (getStatusAsync h aud) as [[status|err] b] eqn:Hquery;
    [|exact Hwin].
  destruct status as [[] met]; unfold onRecordingStatusUpdate;
    cbn [Status.isRecording Status.metering]; [|exact Hwin].
  destruct met as [| |bo|m|s|]; cbn [typeof String.eqb Ascii.eqb Bool.eqb];
    try exact Hwin.
  cbn. apply updater_in_range; [|exact Hwin].
  apply (Hhonest h aud b _ Hquery). reflexivity.
Qed.

Lemma fire_range (t : timer) w :
  never_reports_NaN ->
  Forall in_display_range (pitchData w) ->
  Forall in_display_range (pitchData (fire t w)).
Proof.
  intros Hhonest Hwin. rewrite fire_unfold.
  destruct (timer_callback t) as [h|c|startTime].
  - now apply run_sample_range.
  - cbn [run_callback].
    match goal with |- context [stopRecording c ?w2] =>
      destruct (stopRecording_run c w2)
        as (w3 & Hrun & _ & _ & _ & _ & _ & _ & _ & _ & Hdata)
    end.
    rewrite Hrun. cbn [snd]. rewrite Hdata. exact Hwin.
  - exact Hwin.
Qed.

Lemma press_range w :
  Forall in_display_range (pitchData w) ->
  Forall in_display_range (pitchData (press w)).
Proof.
  intros Hwin. unfold press. destruct (isRecording w).
  - destruct (stopRecording_run (recording w) w)
      as (w3 & Hrun & _ & _ & _ & _ & _ & _ & _ & _ & Hdata).
    rewrite Hrun. cbn [snd]. now rewrite Hdata.
  - destruct (startRecording_cases (recording w) w)
      as (w' & Hrun & _ & _ & [(err & Hfail) | (h & Hok)]);
      rewrite Hrun; cbn [snd].
    + destruct Hfail as (_ & _ & _ & _ & _ & _ & _ & Hdata & _).
      now rewrite Hdata.
    + cbv zeta in Hok. destruct Hok as (_ & _ & _ & Hdata & _).
      rewrite Hdata. constructor.
Qed.

End RangeFacts.


